(** * The batch-submitter driver ([src/exec/run-batch-submitter.ts])

    The driver is an [async] TypeScript function, [run], that validates the
    environment, builds the signer and the two Submitters, and then fires two
    never-ending [loop]s.  Every [await] in the source is an interaction with
    the outside world (the chain, the timers, the logger, the process), so
    the code is embedded as interaction trees over one event signature,
    [ioE]; an awaited promise that rejects is an answer [inl err]. *)

From Stdlib Require Import ZArith NArith List String Ascii Lia Bool DecimalString SpecFloat.
From stdpp Require Import base gmap strings.
From ITree Require Import ITree Eq.Shallow.
Import ListNotations.
Local Open Scope string_scope.

Declare Scope async_scope.
Delimit Scope async_scope with async.
Notation "x <- t ;; k" := (ITree.bind t (fun x => k))
  (at level 100, t at next level, right associativity) : async_scope.
Notation "t ;; k" := (ITree.bind t (fun _ => k))
  (at level 100, right associativity) : async_scope.
(** [x <-? t ;; k]: [const x = await t] inside a [try] block or an [async]
    function: a rejection skips the rest and becomes the result. *)
Notation "x <-? t ;; k" :=
  (ITree.bind t (fun r_ => match r_ with inl err_ => Ret (inl err_) | inr x => k end))
  (at level 100, t at next level, right associativity) : async_scope.
Local Open Scope async_scope.

(** ** JavaScript values *)

(** A Number is an IEEE-754 double: the binary64 format of [SpecFloat], with
    53 bits of precision and 1024 for the exponent of the infinities. *)
Definition number : Type := spec_float.

(** The Number for the integer [z]: the nearest double, ties to even. *)
Definition Num (z : Z) : number := binary_normalize 53 1024 z 0 false.

Definition NaN : number := S754_nan.

(** [a * b] on Numbers. *)
Definition number_mul (a b : number) : number := SFmul 53 1024 a b.

Arguments Num : simpl never.
Arguments number_mul : simpl never.

(** [!s] for a value read from an object: [undefined] and the empty string
    are falsy. *)
Definition truthy (v : option string) : bool :=
  match v with
  | Some (String _ _) => true
  | _ => false
  end.

(** Strings are held as their UTF-8 bytes, the way the environment hands
    them over. *)
Definition byte (c : ascii) : N := N_of_ascii c.

(** StrWhiteSpaceChar in UTF-8: TAB, LF, VT, FF, CR and SP in one byte;
    U+00A0 in two; U+1680, U+2000 to U+200A, U+2028, U+2029, U+202F, U+205F,
    U+3000 and U+FEFF in three. *)
Definition isWhiteSpace1 (c : ascii) : bool :=
  (byte c =? 32)%N || ((9 <=? byte c)%N && (byte c <=? 13)%N).

Definition isWhiteSpace2 (c1 c2 : ascii) : bool :=
  (byte c1 =? 194)%N && (byte c2 =? 160)%N.

Definition isWhiteSpace3 (c1 c2 c3 : ascii) : bool :=
  ((byte c1 =? 225)%N && (byte c2 =? 154)%N && (byte c3 =? 128)%N)
  || ((byte c1 =? 226)%N && (byte c2 =? 128)%N &&
      (((128 <=? byte c3)%N && (byte c3 <=? 138)%N)
       || (byte c3 =? 168)%N || (byte c3 =? 169)%N || (byte c3 =? 175)%N))
  || ((byte c1 =? 226)%N && (byte c2 =? 129)%N && (byte c3 =? 159)%N)
  || ((byte c1 =? 227)%N && (byte c2 =? 128)%N && (byte c3 =? 128)%N)
  || ((byte c1 =? 239)%N && (byte c2 =? 187)%N && (byte c3 =? 191)%N).

Definition digitValue (c : ascii) : option Z :=
  if ((48 <=? byte c)%N && (byte c <=? 57)%N)
  then Some (Z.of_N (byte c) - 48)%Z else None.

Fixpoint trimStart (s : string) : string :=
  match s with
  | String c1 r1 =>
      if isWhiteSpace1 c1 then trimStart r1
      else
        match r1 with
        | String c2 r2 =>
            if isWhiteSpace2 c1 c2 then trimStart r2
            else
              match r2 with
              | String c3 r3 =>
                  if isWhiteSpace3 c1 c2 c3 then trimStart r3 else s
              | EmptyString => s
              end
        | EmptyString => s
        end
  | EmptyString => s
  end.

(** The longest prefix of decimal digits, as a value; [None] when it is
    empty. *)
Fixpoint parseDigits (acc : option Z) (s : string) : option Z :=
  match s with
  | String c s' =>
      match digitValue c with
      | Some d => parseDigits (Some (10 * default 0%Z acc + d)%Z) s'
      | None => acc
      end
  | EmptyString => acc
  end.

(** [parseInt(s, 10)]: leading white space is skipped, then a sign, then
    the digits are read up to the first character that is not one; the
    integer they spell is rounded to a double ([Infinity] when it is too
    large), [-0] for a negated zero, [NaN] when there is no digit. *)
Definition parseInt10 (s : string) : number :=
  let s1 := trimStart s in
  let '(negative, s2) :=
    match s1 with
    | String "-" r => (true, r)
    | String "+" r => (false, r)
    | _ => (false, s1)
    end in
  match parseDigits None s2 with
  | Some z => binary_normalize 53 1024 (if negative then - z else z) 0 negative
  | None => NaN
  end.

(** Template literals print a transaction count in decimal. *)
Definition string_of_N (n : N) : string :=
  NilEmpty.string_of_uint (N.to_uint n).

(** ** Values exchanged with the collaborators *)

Record Error := { message : string }.

(** A settled promise: rejected with an error, or fulfilled. *)
Abbreviation result X := (Error + X)%type.

Variant role := TxBatch | StateBatch.

Variant blockTag := pending | latest.

Record TransactionRequest := { to : string; value : Z; nonce : N }.

Record TransactionResponse := { hash : string; tx_nonce : N }.

Record TransactionReceipt := { transactionHash : string }.

Variant logTag := TX_BATCH_SUBMITTER_LOG_TAG | STATE_BATCH_SUBMITTER_LOG_TAG.

(** The arguments of [new TransactionBatchSubmitter(...)], in order (the
    signer and the L2 provider, the same objects everywhere, are left out);
    [minBalanceEther] holds the string handed to [parseFloat]. *)
Record TransactionBatchSubmitterArgs := {
  tx_minTxSize : number;
  tx_maxTxSize : number;
  tx_maxBatchSize : number;
  tx_maxBatchSubmissionTime : number;
  tx_numConfirmations : number;
  tx_resubmissionTimeout : number;
  tx_flag : bool;
  tx_addressManagerAddress : string;
  tx_minBalanceEther : string;
  tx_log : logTag;
  tx_disableQueueBatchAppend : bool
}.

(** The arguments of [new StateBatchSubmitter(...)]. *)
Record StateBatchSubmitterArgs := {
  st_minTxSize : number;
  st_maxTxSize : number;
  st_maxBatchSize : number;
  st_maxBatchSubmissionTime : number;
  st_numConfirmations : number;
  st_resubmissionTimeout : number;
  st_finalityConfirmations : number;
  st_flag : bool;
  st_addressManagerAddress : string;
  st_minBalanceEther : string;
  st_log : logTag;
  st_fraudSubmissionAddress : string
}.

(** ** The interactions of the driver

    One constructor per call that leaves the file; the index is the type of
    what the call gives back.  [ProcessExit] has an answer type only for
    uniformity: no semantics below ever continues after it. *)
Variant ioE : Type -> Type :=
| LogInfo (msg : string) : ioE unit
| LogError (msg : string) (err : option Error) : ioE unit
| ProcessExit (code : Z) : ioE unit
| NewJsonRpcProvider (url : string) : ioE unit
| NewOptimismProvider (url : string) : ioE unit
| NewWallet (privateKey : string) : ioE (result unit)
| WalletFromMnemonic (mnemonic : string) (path : option string) : ioE (result unit)
| GetAddress : ioE (result string)
| L2Send (method : string) : ioE (result string)
| NewTransactionBatchSubmitter (args : TransactionBatchSubmitterArgs) : ioE unit
| NewStateBatchSubmitter (args : StateBatchSubmitterArgs) : ioE unit
| SetChainId (r : role) (chainId : string) : ioE unit
| GetTransactionCount (tag : blockTag) : ioE (result N)
| SendTransaction (tx : TransactionRequest) : ioE (result TransactionResponse)
| GetReceiptWithResubmission (response : TransactionResponse)
    (priorAttempts : list TransactionResponse)
    (numConfirmations : number) (resubmissionTimeoutMs : number)
  : ioE (result TransactionReceipt)
| SubmitNextBatch (r : role) : ioE (result TransactionReceipt)
| SetTimeout (ms : number) : ioE unit.

(** ** The program *)

Module Driver.

Section WithEnv.

(** [process.env], after [dotenv]'s [config()]. *)
Variable env : gmap string string.

(** The object literal [requiredEnvVars], as [Object.entries] lists it
    (insertion order): every key is bound to its own name. *)
Definition requiredEnvVarsEntries : list (string * string) :=
  (fun k => (k, k)) <$>
  [ "L1_NODE_WEB3_URL"; "L2_NODE_WEB3_URL"; "MIN_TX_SIZE"; "MAX_TX_SIZE";
    "MAX_BATCH_SIZE"; "MAX_BATCH_SUBMISSION_TIME"; "POLL_INTERVAL";
    "NUM_CONFIRMATIONS"; "RESUBMISSION_TIMEOUT"; "FINALITY_CONFIRMATIONS";
    "RUN_TX_BATCH_SUBMITTER"; "RUN_STATE_BATCH_SUBMITTER";
    "SAFE_MINIMUM_ETHER_BALANCE"; "CLEAR_PENDING_TXS";
    "ADDRESS_MANAGER_ADDRESS" ].

Definition requiredEnvVars : gmap string string :=
  list_to_map requiredEnvVarsEntries.

(** Optional variables, read when the module is loaded. *)
Definition FRAUD_SUBMISSION_ADDRESS : string :=
  if truthy (env !! "FRAUD_SUBMISSION_ADDRESS")
  then env !!! "FRAUD_SUBMISSION_ADDRESS" else "no fraud".
Definition DISABLE_QUEUE_BATCH_APPEND : bool :=
  truthy (env !! "DISABLE_QUEUE_BATCH_APPEND").
Definition SEQUENCER_PRIVATE_KEY : option string := env !! "SEQUENCER_PRIVATE_KEY".
Definition MNEMONIC : option string := env !! "MNEMONIC".
Definition HD_PATH : option string := env !! "HD_PATH".

(** [for (const [i, val] of Object.entries(requiredEnvVars)) { ... }], the
    object being updated as the loop goes. *)
Fixpoint checkRequired (entries : list (string * string))
    (vars : gmap string string) : itree ioE (gmap string string) :=
  match entries with
  | [] => Ret vars
  | (_, val) :: rest =>
      (if negb (truthy (env !! val)) then
         ITree.trigger (LogError ("Missing enviornment variable: " ++ val) None);;
         ITree.trigger (ProcessExit 1)
       else Ret tt);;
      checkRequired rest (<[val := env !!! val]> vars)
  end.

(** The body of the [for] over the nonces, one round at nonce [i]. *)
Definition clearNonce (vars : gmap string string) (i : N)
  : itree ioE (result unit) :=
  address <-? ITree.trigger GetAddress;;
  response <-? ITree.trigger
    (SendTransaction {| to := address; value := 0; nonce := i |});;
  ITree.trigger (LogInfo ("Submitting transaction with nonce: " ++ string_of_N i
                          ++ "; hash: " ++ hash response));;
  _ <-? ITree.trigger
    (GetReceiptWithResubmission response []
       (parseInt10 (vars !!! "NUM_CONFIRMATIONS")) (number_mul (Num 60) (Num 1000)));;
  Ret (inr tt).

(** [for (let i = latestTxs; i < pendingTxs; i++) { ... }]; a rejection in
    the body leaves the loop. *)
Definition clearNonces (vars : gmap string string) (latestTxs pendingTxs : N)
  : itree ioE (result unit) :=
  ITree.iter (fun i : N =>
    if (i <? pendingTxs)%N then
      r <- clearNonce vars i;;
      match r with
      | inl err => Ret (inr (inl err))
      | inr _ => Ret (inl (i + 1)%N)
      end
    else Ret (inr (inr tt))) latestTxs.

(** The [try] block of [loop]. *)
Definition clearPending (vars : gmap string string) : itree ioE (result unit) :=
  pendingTxs <-? ITree.trigger (GetTransactionCount pending);;
  latestTxs <-? ITree.trigger (GetTransactionCount latest);;
  if (latestTxs <? pendingTxs)%N then
    ITree.trigger (LogInfo "Detected pending transactions. Clearing all transactions!");;
    clearNonces vars latestTxs pendingTxs
  else Ret (inr tt).

(** One round of [while (true) { ... }]. *)
Definition iteration (vars : gmap string string)
    (func : itree ioE (result TransactionReceipt)) : itree ioE unit :=
  r <- func;;
  match r with
  | inl err =>
      ITree.trigger (LogError "Error submitting batch" (Some err));;
      ITree.trigger (LogInfo "Retrying...")
  | inr _ => Ret tt
  end;;
  ITree.trigger (SetTimeout (parseInt10 (vars !!! "POLL_INTERVAL"))).

(** [while (true) { ... }]. *)
Definition submissionLoop (vars : gmap string string)
    (func : itree ioE (result TransactionReceipt)) : itree ioE void :=
  ITree.forever (iteration vars func).

(** [const loop = async (func) => { ... }].  The source goes on to
    [while (true)] after the [catch]; that [process.exit] does not come back
    is a fact about the process, stated by the semantics. *)
Definition loop (vars : gmap string string) (clearPendingTxs : bool)
    (func : itree ioE (result TransactionReceipt)) : itree ioE void :=
  (if clearPendingTxs then
     r <- clearPending vars;;
     match r with
     | inl err =>
         ITree.trigger (LogError "Cannot clear transactions" (Some err));;
         ITree.trigger (ProcessExit 1)
     | inr _ => Ret tt
     end
   else Ret tt);;
  submissionLoop vars func.

Definition submitNextBatch (r : role) : itree ioE (result TransactionReceipt) :=
  ITree.trigger (SubmitNextBatch r).

Definition txBatchSubmitterArgs (vars : gmap string string)
  : TransactionBatchSubmitterArgs :=
  {| tx_minTxSize := parseInt10 (vars !!! "MIN_TX_SIZE");
     tx_maxTxSize := parseInt10 (vars !!! "MAX_TX_SIZE");
     tx_maxBatchSize := parseInt10 (vars !!! "MAX_BATCH_SIZE");
     tx_maxBatchSubmissionTime :=
       number_mul (parseInt10 (vars !!! "MAX_BATCH_SUBMISSION_TIME")) (Num 1000);
     tx_numConfirmations := parseInt10 (vars !!! "NUM_CONFIRMATIONS");
     tx_resubmissionTimeout :=
       number_mul (parseInt10 (vars !!! "RESUBMISSION_TIMEOUT")) (Num 1000);
     tx_flag := true;
     tx_addressManagerAddress := vars !!! "ADDRESS_MANAGER_ADDRESS";
     tx_minBalanceEther := vars !!! "SAFE_MINIMUM_ETHER_BALANCE";
     tx_log := TX_BATCH_SUBMITTER_LOG_TAG;
     tx_disableQueueBatchAppend := DISABLE_QUEUE_BATCH_APPEND |}.

Definition stateBatchSubmitterArgs (vars : gmap string string)
  : StateBatchSubmitterArgs :=
  {| st_minTxSize := parseInt10 (vars !!! "MIN_TX_SIZE");
     st_maxTxSize := parseInt10 (vars !!! "MAX_TX_SIZE");
     st_maxBatchSize := parseInt10 (vars !!! "MAX_BATCH_SIZE");
     st_maxBatchSubmissionTime :=
       number_mul (parseInt10 (vars !!! "MAX_BATCH_SUBMISSION_TIME")) (Num 1000);
     st_numConfirmations := parseInt10 (vars !!! "NUM_CONFIRMATIONS");
     st_resubmissionTimeout :=
       number_mul (parseInt10 (vars !!! "RESUBMISSION_TIMEOUT")) (Num 1000);
     st_finalityConfirmations := parseInt10 (vars !!! "FINALITY_CONFIRMATIONS");
     st_flag := true;
     st_addressManagerAddress := vars !!! "ADDRESS_MANAGER_ADDRESS";
     st_minBalanceEther := vars !!! "SAFE_MINIMUM_ETHER_BALANCE";
     st_log := STATE_BATCH_SUBMITTER_LOG_TAG;
     st_fraudSubmissionAddress := FRAUD_SUBMISSION_ADDRESS |}.

(** The construction of [sequencerSigner]. *)
Definition newSequencerSigner : itree ioE (result unit) :=
  if truthy SEQUENCER_PRIVATE_KEY then
    ITree.trigger (NewWallet (default "" SEQUENCER_PRIVATE_KEY))
  else if truthy MNEMONIC then
    ITree.trigger (WalletFromMnemonic (default "" MNEMONIC) HD_PATH)
  else
    Ret (inl {| message := "Must pass one of SEQUENCER_PRIVATE_KEY or MNEMONIC" |}).

(** The two [if (... === 'true') { loop(...) }] at the end of [run]: the
    loops that are fired, in the order they are fired. *)
Definition launch (vars : gmap string string) (clearPendingTxs : bool)
  : list (role * itree ioE void) :=
  (if String.eqb (vars !!! "RUN_TX_BATCH_SUBMITTER") "true"
   then [(TxBatch, loop vars clearPendingTxs (submitNextBatch TxBatch))] else [])
  ++
  (if String.eqb (vars !!! "RUN_STATE_BATCH_SUBMITTER") "true"
   then [(StateBatch, loop vars clearPendingTxs (submitNextBatch StateBatch))] else []).

(** [export const run = async () => { ... }].  The promise it returns rejects
    ([inl]) or fulfils with the loops left running. *)
Definition run : itree ioE (result (list (role * itree ioE void))) :=
  ITree.trigger (LogInfo "Starting batch submitter...");;
  vars <- checkRequired requiredEnvVarsEntries requiredEnvVars;;
  let clearPendingTxs := String.eqb (vars !!! "CLEAR_PENDING_TXS") "true" in
  ITree.trigger (NewJsonRpcProvider (vars !!! "L1_NODE_WEB3_URL"));;
  ITree.trigger (NewOptimismProvider (vars !!! "L2_NODE_WEB3_URL"));;
  _ <-? newSequencerSigner;;
  address <-? ITree.trigger GetAddress;;
  ITree.trigger (LogInfo ("Using sequencer address: " ++ address));;
  chainId <-? ITree.trigger (L2Send "eth_chainId");;
  ITree.trigger (NewTransactionBatchSubmitter (txBatchSubmitterArgs vars));;
  ITree.trigger (SetChainId TxBatch chainId);;
  ITree.trigger (NewStateBatchSubmitter (stateBatchSubmitterArgs vars));;
  ITree.trigger (SetChainId StateBatch chainId);;
  Ret (inr (launch vars clearPendingTxs)).

End WithEnv.

End Driver.

(** ** Running a task against the outside world

    The outside world answers every interaction; an [answerer] is one such
    reply, whatever the interaction turns out to be.  A task advances one
    node of its tree per reply it is given ([Tau], the silent step between
    two rounds of a loop, uses one up as well). *)

Definition answerer : Type := forall X, ioE X -> X.

(** A completed interaction: the call and what came back. *)
Inductive obs : Type :=
| Obs : forall X : Type, ioE X -> X -> obs.
Arguments Obs {X} e x.

Definition exitCode {X} (e : ioE X) : option Z :=
  match e with
  | ProcessExit code => Some code
  | _ => None
  end.

Variant status (R : Type) : Type :=
| Pending
| Returned (r : R) (rest : list answerer)
| Exited (code : Z).
Arguments Pending {R}.
Arguments Returned {R} r rest.
Arguments Exited {R} code.

(** [exec1 answers t]: the interactions of [t] while the answers last, and
    how it stands then.  [process.exit] ends everything. *)
Fixpoint exec1 {R} (answers : list answerer) (t : itree ioE R)
  : list obs * status R :=
  match observe t with
  | RetF r => ([], Returned r answers)
  | TauF t' =>
      match answers with
      | [] => ([], Pending)
      | _ :: rest => exec1 rest t'
      end
  | VisF e k =>
      match answers with
      | [] => ([], Pending)
      | a :: rest =>
          match exitCode e with
          | Some code => ([Obs e (a _ e)], Exited code)
          | None =>
              let '(tr, s) := exec1 rest (k (a _ e)) in (Obs e (a _ e) :: tr, s)
          end
      end
  end.

(** The loops of one process: at most one per role, the exit status once
    [process.exit] has been called, and the interactions so far, oldest
    first. *)
Record pool := {
  txLoop : option (itree ioE void);
  stateLoop : option (itree ioE void);
  exited : option Z;
  history : list (role * obs)
}.

Definition taskOf (r : role) (p : pool) : option (itree ioE void) :=
  match r with TxBatch => txLoop p | StateBatch => stateLoop p end.

Definition setTask (r : role) (t : itree ioE void) (p : pool) : pool :=
  match r with
  | TxBatch => {| txLoop := Some t; stateLoop := stateLoop p;
                  exited := exited p; history := history p |}
  | StateBatch => {| txLoop := txLoop p; stateLoop := Some t;
                     exited := exited p; history := history p |}
  end.

Definition record (r : role) (o : obs) (p : pool) : pool :=
  {| txLoop := txLoop p; stateLoop := stateLoop p;
     exited := exited p; history := history p ++ [(r, o)] |}.

Definition halt (code : Z) (p : pool) : pool :=
  {| txLoop := txLoop p; stateLoop := stateLoop p;
     exited := Some code; history := history p |}.

(** The loop of role [r] gets the reply [a] and moves on; nothing moves once
    the process has exited. *)
Definition poolStep (c : role * answerer) (p : pool) : pool :=
  let '(r, a) := c in
  match exited p, taskOf r p with
  | None, Some t =>
      match observe t with
      | RetF v => match v with end
      | TauF t' => setTask r t' p
      | VisF e k =>
          match exitCode e with
          | Some code => halt code (record r (Obs e (a _ e)) p)
          | None => setTask r (k (a _ e)) (record r (Obs e (a _ e)) p)
          end
      end
  | _, _ => p
  end.

(** Any interleaving of the loops is a schedule: which loop is answered
    next, and with what. *)
Definition runPool (schedule : list (role * answerer)) (p : pool) : pool :=
  fold_left (fun p c => poolStep c p) schedule p.

Definition startPool (loops : list (role * itree ioE void)) : pool :=
  fold_left (fun p '(r, t) => setTask r t p) loops
    {| txLoop := None; stateLoop := None; exited := None; history := [] |}.

(** The whole process: [run] against [startup] answers, then the loops it
    fired against a schedule. *)
Variant outcome : Type :=
| StartingUp
| ExitedAtStartup (code : Z)
| Rejected (err : Error)
| Launched (p : pool).

Definition process (env : gmap string string) (startup : list answerer)
    (schedule : list (role * answerer)) : list obs * outcome :=
  match exec1 startup (Driver.run env) with
  | (tr, Pending) => (tr, StartingUp)
  | (tr, Exited code) => (tr, ExitedAtStartup code)
  | (tr, Returned (inl err) _) => (tr, Rejected err)
  | (tr, Returned (inr loops) _) => (tr, Launched (runPool schedule (startPool loops)))
  end.

(** ** Reading a history *)

Definition role_eqb (a b : role) : bool :=
  match a, b with
  | TxBatch, TxBatch | StateBatch, StateBatch => true
  | _, _ => false
  end.

(** The interactions of the loop of role [r], in order. *)
Definition ofRole (r : role) (h : list (role * obs)) : list obs :=
  map snd (List.filter (fun c => role_eqb (fst c) r) h).

Definition isSubmitOf (r : role) (o : obs) : bool :=
  match o with
  | Obs e _ => match e with SubmitNextBatch r' => role_eqb r' r | _ => false end
  end.

Definition isSubmit (o : obs) : bool :=
  match o with
  | Obs e _ => match e with SubmitNextBatch _ => true | _ => false end
  end.

Definition isPendingRead (o : obs) : bool :=
  match o with
  | Obs e _ => match e with GetTransactionCount pending => true | _ => false end
  end.

(** What the reconciliation asks of the signer and of the Confirmation
    Waiter. *)
Definition isReconcile (o : obs) : bool :=
  match o with
  | Obs e _ =>
      match e with
      | GetTransactionCount _ | GetAddress | SendTransaction _
      | GetReceiptWithResubmission _ _ _ _ => true
      | _ => false
      end
  end.

Definition isExit (o : obs) : bool :=
  match o with
  | Obs e _ => match e with ProcessExit _ => true | _ => false end
  end.

Definition constructsSubmitter (o : obs) : bool :=
  match o with
  | Obs e _ =>
      match e with
      | NewTransactionBatchSubmitter _ | NewStateBatchSubmitter _ => true
      | _ => false
      end
  end.

Definition is_inl {A B} (x : A + B) : bool :=
  match x with inl _ => true | inr _ => false end.

(** The awaited promise rejected. *)
Definition rejected (o : obs) : bool :=
  match o with
  | Obs e x =>
      match e in ioE X return X -> bool with
      | NewWallet _ | WalletFromMnemonic _ _ => is_inl
      | GetAddress | L2Send _ => is_inl
      | GetTransactionCount _ | SendTransaction _ => is_inl
      | GetReceiptWithResubmission _ _ _ _ | SubmitNextBatch _ => is_inl
      | _ => fun _ => false
      end x
  end.

Definition sleepOf (o : obs) : option number :=
  match o with
  | Obs e _ => match e with SetTimeout ms => Some ms | _ => None end
  end.

Definition sentNonce (o : obs) : option N :=
  match o with
  | Obs e _ => match e with SendTransaction tx => Some (nonce tx) | _ => None end
  end.

(** The nonces of the transactions broadcast, in the order of broadcast. *)
Definition sentNonces (tr : list obs) : list N := omap sentNonce tr.

Definition txArgsOf (o : obs) : option TransactionBatchSubmitterArgs :=
  match o with
  | Obs e _ => match e with NewTransactionBatchSubmitter a => Some a | _ => None end
  end.

Definition stateArgsOf (o : obs) : option StateBatchSubmitterArgs :=
  match o with
  | Obs e _ => match e with NewStateBatchSubmitter a => Some a | _ => None end
  end.

(** Every interaction [t] can ever have satisfies [P], whatever it is
    answered. *)
Definition always (P : obs -> Prop) {R} (t : itree ioE R) : Prop :=
  forall answers, Forall P (fst (exec1 answers t)).

(** [t] never calls [process.exit], whatever it is answered. *)
Definition neverExits {R} (t : itree ioE R) : Prop :=
  forall answers code, snd (exec1 answers t) <> Exited code.

(** The name of the variable that enables a role. *)
Definition runFlag (r : role) : string :=
  match r with
  | TxBatch => "RUN_TX_BATCH_SUBMITTER"
  | StateBatch => "RUN_STATE_BATCH_SUBMITTER"
  end.

(** [requiredEnvVars] once the startup loop has copied the environment
    into it. *)
Definition loadedVars (env : gmap string string) : gmap string string :=
  fold_left (fun vars '(_, val) => <[val := env !!! val]> vars)
    Driver.requiredEnvVarsEntries Driver.requiredEnvVars.

(** The first required variable that is unset or empty. *)
Definition firstMissing (env : gmap string string) : option string :=
  List.find (fun val => negb (truthy (env !! val)))
    (map snd Driver.requiredEnvVarsEntries).

(** ** The reconciliation, interaction by interaction *)

Definition readCount (tag : blockTag) (n : N) : obs :=
  Obs (GetTransactionCount tag) (inr n).

(** The four interactions of a round that clears nonce [i]. *)
Definition clearedRound (numConfirmations : number) (i : N) (address : string)
    (response : TransactionResponse) (receipt : TransactionReceipt) : list obs :=
  [ Obs GetAddress (inr address);
    Obs (SendTransaction {| to := address; value := 0; nonce := i |}) (inr response);
    Obs (LogInfo ("Submitting transaction with nonce: " ++ string_of_N i
                  ++ "; hash: " ++ hash response)) tt;
    Obs (GetReceiptWithResubmission response [] numConfirmations (Num 60000))
        (inr receipt) ].

(** [roundsFrom n p i tr o]: [tr] is what clearing the nonces from [i] up to
    [p] (excluded) can look like, one round after the other: complete
    ([o = Some (inr tt)]), cut short by a rejection ([Some (inl err)]), or
    not finished yet ([None]). *)
Inductive roundsFrom (numConfirmations : number) (pendingTxs : N)
  : N -> list obs -> option (result unit) -> Prop :=
| rounds_done i :
    (pendingTxs <= i)%N ->
    roundsFrom numConfirmations pendingTxs i [] (Some (inr tt))
| rounds_waiting i :
    roundsFrom numConfirmations pendingTxs i [] None
| rounds_address_rejected i err :
    (i < pendingTxs)%N ->
    roundsFrom numConfirmations pendingTxs i
      [Obs GetAddress (inl err)] (Some (inl err))
| rounds_address i address :
    (i < pendingTxs)%N ->
    roundsFrom numConfirmations pendingTxs i
      [Obs GetAddress (inr address)] None
| rounds_send_rejected i address err :
    (i < pendingTxs)%N ->
    roundsFrom numConfirmations pendingTxs i
      [Obs GetAddress (inr address);
       Obs (SendTransaction {| to := address; value := 0; nonce := i |}) (inl err)]
      (Some (inl err))
| rounds_sent i address response :
    (i < pendingTxs)%N ->
    roundsFrom numConfirmations pendingTxs i
      [Obs GetAddress (inr address);
       Obs (SendTransaction {| to := address; value := 0; nonce := i |}) (inr response)]
      None
| rounds_logged i address response :
    (i < pendingTxs)%N ->
    roundsFrom numConfirmations pendingTxs i
      [Obs GetAddress (inr address);
       Obs (SendTransaction {| to := address; value := 0; nonce := i |}) (inr response);
       Obs (LogInfo ("Submitting transaction with nonce: " ++ string_of_N i
                     ++ "; hash: " ++ hash response)) tt]
      None
| rounds_wait_rejected i address response err :
    (i < pendingTxs)%N ->
    roundsFrom numConfirmations pendingTxs i
      [Obs GetAddress (inr address);
       Obs (SendTransaction {| to := address; value := 0; nonce := i |}) (inr response);
       Obs (LogInfo ("Submitting transaction with nonce: " ++ string_of_N i
                     ++ "; hash: " ++ hash response)) tt;
       Obs (GetReceiptWithResubmission response [] numConfirmations (Num 60000))
           (inl err)]
      (Some (inl err))
| rounds_next i address response receipt tr o :
    (i < pendingTxs)%N ->
    roundsFrom numConfirmations pendingTxs (i + 1) tr o ->
    roundsFrom numConfirmations pendingTxs i
      (clearedRound numConfirmations i address response receipt ++ tr) o.

(** The same for the whole [try] block: the two counts are read, then the
    rounds, if any. *)
Inductive reconciled (numConfirmations : number)
  : list obs -> option (result unit) -> Prop :=
| reconciled_waiting :
    reconciled numConfirmations [] None
| reconciled_pending_rejected err :
    reconciled numConfirmations
      [Obs (GetTransactionCount pending) (inl err)] (Some (inl err))
| reconciled_pending p :
    reconciled numConfirmations [readCount pending p] None
| reconciled_latest_rejected p err :
    reconciled numConfirmations
      [readCount pending p; Obs (GetTransactionCount latest) (inl err)]
      (Some (inl err))
| reconciled_nothing p l :
    (p <= l)%N ->
    reconciled numConfirmations
      [readCount pending p; readCount latest l] (Some (inr tt))
| reconciled_detected p l :
    (l < p)%N ->
    reconciled numConfirmations [readCount pending p; readCount latest l] None
| reconciled_rounds p l tr o :
    (l < p)%N ->
    roundsFrom numConfirmations p l tr o ->
    reconciled numConfirmations
      (readCount pending p :: readCount latest l ::
       Obs (LogInfo "Detected pending transactions. Clearing all transactions!") tt ::
       tr) o.

(** How a task that returns a settled promise stands. *)
Definition settled {R} (s : status R) : option R :=
  match s with
  | Returned r _ => Some r
  | _ => None
  end.

(** The nonces [latestTxs], [latestTxs + 1], ..., [pendingTxs - 1]. *)
Definition nonceRange (latestTxs pendingTxs : N) : list N :=
  map (fun k => (latestTxs + N.of_nat k)%N)
      (seq 0 (N.to_nat (pendingTxs - latestTxs))).

(** ** The submission loop, round by round *)

(** The interactions of one round of role [r], given how [submitNextBatch]
    settled. *)
Definition iterationTrace (r : role) (pollInterval : number)
    (o : result TransactionReceipt) : list obs :=
  match o with
  | inr receipt =>
      [ Obs (SubmitNextBatch r) (inr receipt);
        Obs (SetTimeout pollInterval) tt ]
  | inl err =>
      [ Obs (SubmitNextBatch r) (inl err);
        Obs (LogError "Error submitting batch" (Some err)) tt;
        Obs (LogInfo "Retrying...") tt;
        Obs (SetTimeout pollInterval) tt ]
  end.

(** ** Worlds to run against *)

(** Modelled from the spec: the signer's nonce state and the Confirmation
    Waiter, which are not in this file.  A [NonceWindow] has [pending >=
    latest], the transactions broadcast and not mined occupying the nonces
    [latest .. pending - 1]; at most one transaction per nonce is current,
    so that a broadcast at an occupied nonce replaces what was there; the
    Confirmation Waiter returns once the transaction it is given is
    durably confirmed, which makes its nonce a mined one.  The Submitters
    are outside this model: it is meant for the reconciliation alone. *)
Record chain := {
  selfAddress : string;
  latestCount : N;
  pendingCount : N
}.

Definition chainReply (c : chain) : answerer :=
  fun X e =>
    match e in ioE X return X with
    | LogInfo _ | LogError _ _ | ProcessExit _ => tt
    | NewJsonRpcProvider _ | NewOptimismProvider _ => tt
    | NewWallet _ | WalletFromMnemonic _ _ => inr tt
    | GetAddress => inr (selfAddress c)
    | L2Send _ => inr "0x1"
    | NewTransactionBatchSubmitter _ | NewStateBatchSubmitter _ => tt
    | SetChainId _ _ => tt
    | GetTransactionCount pending => inr (pendingCount c)
    | GetTransactionCount latest => inr (latestCount c)
    | SendTransaction tx =>
        if (nonce tx <? latestCount c)%N
        then inl {| message := "nonce too low" |}
        else inr {| hash := "0x" ++ string_of_N (nonce tx); tx_nonce := nonce tx |}
    | GetReceiptWithResubmission response _ _ _ =>
        if (tx_nonce response <=? latestCount c)%N
        then inr {| transactionHash := hash response |}
        else inl {| message := "nonce not next" |}
    | SubmitNextBatch _ => inr {| transactionHash := "0x" |}
    | SetTimeout _ => tt
    end.

(** Modelled from the spec: what an interaction leaves of the nonce state.
    A broadcast at the first free nonce occupies it; a confirmed wait on the
    transaction at the first unmined nonce mines it. *)
Definition chainAfter (c : chain) (o : obs) : chain :=
  match o with
  | Obs e x =>
      match e in ioE X return X -> chain with
      | SendTransaction tx => fun x =>
          match x with
          | inr _ =>
              if (nonce tx =? pendingCount c)%N
              then {| selfAddress := selfAddress c; latestCount := latestCount c;
                      pendingCount := pendingCount c + 1 |}
              else c
          | inl _ => c
          end
      | GetReceiptWithResubmission response _ _ _ => fun x =>
          match x with
          | inr _ =>
              if (tx_nonce response =? latestCount c)%N
              then {| selfAddress := selfAddress c; latestCount := latestCount c + 1;
                      pendingCount := N.max (pendingCount c) (latestCount c + 1) |}
              else c
          | inl _ => c
          end
      | _ => fun _ => c
      end x
  end.

Definition answeredBy (c : chain) (o : obs) : Prop :=
  match o with
  | Obs e x => x = chainReply c _ e
  end.

(** Every interaction of [tr] was answered by the chain, in the state the
    interactions before it had left. *)
Fixpoint consistent (c : chain) (tr : list obs) : Prop :=
  match tr with
  | [] => True
  | o :: tr' => answeredBy c o /\ consistent (chainAfter c o) tr'
  end.

Definition replay (c : chain) (tr : list obs) : chain :=
  fold_left chainAfter tr c.

(** The chain's answers to a reconciliation that starts in state [c]: to
    [n] rounds, and to the whole of it. *)
Fixpoint clearingAnswers (n : nat) (c : chain) : list answerer :=
  match n with
  | O => []
  | S n' =>
      let c' := {| selfAddress := selfAddress c; latestCount := latestCount c + 1;
                   pendingCount := N.max (pendingCount c) (latestCount c + 1) |} in
      [chainReply c; chainReply c; chainReply c; chainReply c; chainReply c']
      ++ clearingAnswers n' c'
  end.

Definition reconcilingAnswers (c : chain) : list answerer :=
  [chainReply c; chainReply c; chainReply c]
  ++ clearingAnswers (N.to_nat (pendingCount c - latestCount c)) c.

(** A world where nothing is pending and everything goes through. *)
Definition idle : answerer :=
  chainReply {| selfAddress := "0xSEQUENCER"; latestCount := 0; pendingCount := 0 |}.

(** A world like [idle], where [submitNextBatch] settles as [o]. *)
Definition submitted (o : result TransactionReceipt) : answerer :=
  fun X e =>
    match e in ioE X return X with
    | SubmitNextBatch _ => o
    | e' => idle _ e'
    end.

(** A world where every promise rejects. *)
Definition rejecting (err : Error) : answerer :=
  fun X e =>
    match e in ioE X return X with
    | NewWallet _ | WalletFromMnemonic _ _ => inl err
    | GetAddress | L2Send _ => inl err
    | GetTransactionCount _ | SendTransaction _ => inl err
    | GetReceiptWithResubmission _ _ _ _ | SubmitNextBatch _ => inl err
    | e' => idle _ e'
    end.

(** The answers one round of a submission loop uses up when
    [submitNextBatch] settles as [o]. *)
Definition answersFor (o : result TransactionReceipt) : list answerer :=
  match o with
  | inr _ => [submitted o; idle; idle]
  | inl _ => [submitted o; idle; idle; idle; idle]
  end.

(** ** Two runs that differ by the transaction-batch Submitter only *)

Definition isTxSubmit {X} (e : ioE X) : bool :=
  match e with
  | SubmitNextBatch TxBatch => true
  | _ => false
  end.

(** The same loop is answered, and with the same reply, unless it is the
    transaction-batch loop asking for [submitNextBatch]. *)
Definition sameButTxSubmitter (c1 c2 : role * answerer) : Prop :=
  fst c1 = fst c2 /\
  forall X (e : ioE X),
    snd c1 X e = snd c2 X e \/ (fst c1 = TxBatch /\ isTxSubmit e = true).

(** The example of the specification: three transactions stuck at the
    nonces 5, 6 and 7. *)
Definition window58 : chain :=
  {| selfAddress := "0xSEQUENCER"; latestCount := 5; pendingCount := 8 |}.

(** What is left of a task once it has used the answers up (the task itself
    where it has returned or exited). *)
Fixpoint after {R} (answers : list answerer) (t : itree ioE R) : itree ioE R :=
  match answers with
  | [] => t
  | a :: rest =>
      match observe t with
      | RetF _ => t
      | TauF t' => after rest t'
      | VisF e k =>
          match exitCode e with
          | Some _ => t
          | None => after rest (k (a _ e))
          end
      end
  end.

(** ** What each part of the driver may do *)

(** The interactions of [run] before the loops are fired. *)
Definition startupObs (env : gmap string string) (o : obs) : Prop :=
  match o with
  | Obs e _ =>
      match e with
      | LogInfo _ | LogError _ _ | ProcessExit _ => True
      | NewJsonRpcProvider _ | NewOptimismProvider _ => True
      | NewWallet _ | WalletFromMnemonic _ _ => True
      | GetAddress | L2Send _ | SetChainId _ _ => True
      | NewTransactionBatchSubmitter args =>
          args = Driver.txBatchSubmitterArgs env (loadedVars env)
      | NewStateBatchSubmitter args =>
          args = Driver.stateBatchSubmitterArgs env (loadedVars env)
      | _ => False
      end
  end.

(** The interactions of the loop of role [r]. *)
Definition loopObs (vars : gmap string string) (r : role) (o : obs) : Prop :=
  match o with
  | Obs e _ =>
      match e with
      | LogInfo _ | LogError _ _ | ProcessExit _ => True
      | GetTransactionCount _ | GetAddress | SendTransaction _ => True
      | GetReceiptWithResubmission _ _ _ _ => True
      | SubmitNextBatch r' => r' = r
      | SetTimeout ms => ms = parseInt10 (vars !!! "POLL_INTERVAL")
      | _ => False
      end
  end.

(** The clear-pending flag, as [run] reads it. *)
Definition clearFlag (env : gmap string string) : bool :=
  String.eqb (loadedVars env !!! "CLEAR_PENDING_TXS") "true".

(** ** Environments and schedules to run *)

(** An environment with every required variable set, a private key, and the
    three flags as given. *)
Definition envWith (runTx runState clearPending : string) : gmap string string :=
  list_to_map
    [ ("L1_NODE_WEB3_URL", "http://l1:8545"); ("L2_NODE_WEB3_URL", "http://l2:8545");
      ("MIN_TX_SIZE", "32"); ("MAX_TX_SIZE", "90000"); ("MAX_BATCH_SIZE", "50");
      ("MAX_BATCH_SUBMISSION_TIME", "90"); ("POLL_INTERVAL", "15");
      ("NUM_CONFIRMATIONS", "2"); ("RESUBMISSION_TIMEOUT", "300");
      ("FINALITY_CONFIRMATIONS", "6");
      ("RUN_TX_BATCH_SUBMITTER", runTx); ("RUN_STATE_BATCH_SUBMITTER", runState);
      ("SAFE_MINIMUM_ETHER_BALANCE", "0.5"); ("CLEAR_PENDING_TXS", clearPending);
      ("ADDRESS_MANAGER_ADDRESS", "0xADDRESSMANAGER");
      ("SEQUENCER_PRIVATE_KEY", "0xKEY") ].

(** Enough successful answers for [run] to get to the end. *)
Definition startupOk : list answerer := repeat idle 11.

Definition otherRole (r : role) : role :=
  match r with TxBatch => StateBatch | StateBatch => TxBatch end.

(** A rejection met by the reconciliation. *)
Definition failedReconcile (o : obs) : bool := isReconcile o && rejected o.

(** Both roles enabled and the clear-pending flag on. *)
Definition envBoth : gmap string string := envWith "true" "true" "true".

(** The transaction-batch loop is answered three times (its two counts,
    equal, then its first [submitNextBatch]) before the state-batch loop
    gets the answers to its own two counts. *)
Definition txFirst : list (role * answerer) :=
  [(TxBatch, idle); (TxBatch, idle); (TxBatch, idle);
   (StateBatch, idle); (StateBatch, idle)].

(** The same, but the state-batch loop fails to read its second count, logs
    and exits. *)
Definition txFirstThenFailure : list (role * answerer) :=
  [(TxBatch, idle); (TxBatch, idle); (TxBatch, idle);
   (StateBatch, idle); (StateBatch, rejecting {| message := "timeout" |});
   (StateBatch, idle); (StateBatch, idle)].

(** Every required variable set, but neither a private key nor a
    mnemonic. *)
Definition envNoSigner : gmap string string :=
  delete "SEQUENCER_PRIVATE_KEY" envBoth.

(** A world like [idle], where [submitNextBatch] of the transaction-batch
    Submitter settles as [o]. *)
Definition txSubmitted (o : result TransactionReceipt) : answerer :=
  fun X e =>
    match e in ioE X return X with
    | SubmitNextBatch TxBatch => o
    | e' => idle _ e'
    end.

(** Two loops of the transaction-batch role that are at the same point of
    their run, or that differ but are both past everything that could end
    the process. *)
Definition txRelated (vars : gmap string string)
    (t1 t2 : option (itree ioE void)) : Prop :=
  (t1 = t2 /\
   (t1 = None \/
    exists u : itree ioE unit,
      t1 = Some (ITree.bind u (fun _ =>
                   Driver.submissionLoop vars (Driver.submitNextBatch TxBatch))) /\
      always (fun o => isSubmit o = false) u))
  \/
  (exists a b, t1 = Some a /\ t2 = Some b /\ neverExits a /\ neverExits b).

(** Two pools that the state-batch role cannot tell apart. *)
Definition poolsRelated (vars : gmap string string) (p1 p2 : pool) : Prop :=
  exited p1 = exited p2 /\
  stateLoop p1 = stateLoop p2 /\
  ofRole StateBatch (history p1) = ofRole StateBatch (history p2) /\
  txRelated vars (txLoop p1) (txLoop p2).

(** Six steps, the loops taking turns; the transaction-batch Submitter
    settles as [o]. *)
Definition alternating (o : result TransactionReceipt) : list (role * answerer) :=
  [(TxBatch, txSubmitted o); (StateBatch, idle); (TxBatch, txSubmitted o);
   (StateBatch, idle); (TxBatch, txSubmitted o); (StateBatch, idle)].

(** ** A successful startup *)

(** The construction of the signer that went through: from the private key
    when there is one, from the mnemonic otherwise. *)
Definition signerObs (env : gmap string string) : obs :=
  if truthy (Driver.SEQUENCER_PRIVATE_KEY env)
  then Obs (NewWallet (default "" (Driver.SEQUENCER_PRIVATE_KEY env))) (inr tt)
  else Obs (WalletFromMnemonic (default "" (Driver.MNEMONIC env)) (Driver.HD_PATH env))
           (inr tt).

(** The interactions of a [run] that gets to fire its loops, for the
    address the signer reports and the chain id the L2 node gives. *)
Definition startupTrace (env : gmap string string) (address chainId : string)
  : list obs :=
  [ Obs (LogInfo "Starting batch submitter...") tt;
    Obs (NewJsonRpcProvider (env !!! "L1_NODE_WEB3_URL")) tt;
    Obs (NewOptimismProvider (env !!! "L2_NODE_WEB3_URL")) tt;
    signerObs env;
    Obs GetAddress (inr address);
    Obs (LogInfo ("Using sequencer address: " ++ address)) tt;
    Obs (L2Send "eth_chainId") (inr chainId);
    Obs (NewTransactionBatchSubmitter
           (Driver.txBatchSubmitterArgs env (loadedVars env))) tt;
    Obs (SetChainId TxBatch chainId) tt;
    Obs (NewStateBatchSubmitter
           (Driver.stateBatchSubmitterArgs env (loadedVars env))) tt;
    Obs (SetChainId StateBatch chainId) tt ].

(** The error an interaction was rejected with. *)
Definition errorOf (o : obs) : option Error :=
  match o with
  | Obs e x =>
      match e in ioE X return X -> option Error with
      | NewWallet _ | WalletFromMnemonic _ _ => fun x => match x with inl err => Some err | inr _ => None end
      | GetAddress | L2Send _ => fun x => match x with inl err => Some err | inr _ => None end
      | GetTransactionCount _ | SendTransaction _ => fun x => match x with inl err => Some err | inr _ => None end
      | GetReceiptWithResubmission _ _ _ _ | SubmitNextBatch _ =>
          fun x => match x with inl err => Some err | inr _ => None end
      | _ => fun _ => None
      end x
  end.

Definition usesMnemonic (o : obs) : bool :=
  match o with
  | Obs e _ => match e with WalletFromMnemonic _ _ => true | _ => false end
  end.

Definition usesPrivateKey (o : obs) : bool :=
  match o with
  | Obs e _ => match e with NewWallet _ => true | _ => false end
  end.

(** An answerer that rejects nothing. *)
Definition agreeable (a : answerer) : Prop :=
  forall X (e : ioE X), rejected (Obs e (a X e)) = false.

(** What the driver may ask to be broadcast or waited for: a zero-value
    transfer; a wait with no prior attempt, [parseInt(NUM_CONFIRMATIONS)]
    confirmations and 60000 ms between resubmissions. *)
Definition reconcileObs (vars : gmap string string) (o : obs) : Prop :=
  match o with
  | Obs e _ =>
      match e with
      | SendTransaction tx => value tx = 0%Z
      | GetReceiptWithResubmission _ prior n ms =>
          prior = [] /\ n = parseInt10 (vars !!! "NUM_CONFIRMATIONS") /\ ms = Num 60000
      | _ => True
      end
  end.

(** The signer [run] builds: from the private key when there is one, from
    the mnemonic and [HD_PATH] only when there is no private key. *)
Definition signerChoice (env : gmap string string) (o : obs) : Prop :=
  match o with
  | Obs e _ =>
      match e with
      | NewWallet key =>
          Driver.SEQUENCER_PRIVATE_KEY env = Some key /\ key <> ""
      | WalletFromMnemonic mnemonic path =>
          truthy (Driver.SEQUENCER_PRIVATE_KEY env) = false /\
          Driver.MNEMONIC env = Some mnemonic /\ mnemonic <> "" /\
          path = Driver.HD_PATH env
      | _ => True
      end
  end.

(** A world where every promise fulfils. *)
Definition fulfilling : answerer :=
  fun X e =>
    match e in ioE X return X with
    | GetTransactionCount _ => inr 0%N
    | SendTransaction tx =>
        inr {| hash := "0x" ++ string_of_N (nonce tx); tx_nonce := nonce tx |}
    | GetReceiptWithResubmission response _ _ _ =>
        inr {| transactionHash := hash response |}
    | e' => idle _ e'
    end.

(** The answers a schedule has for the loop of role [r], in order. *)
Definition answersOf (r : role) (schedule : list (role * answerer)) : list answerer :=
  map snd (List.filter (fun c => role_eqb (fst c) r) schedule).

(** ** The process as a whole *)

(** Modelled from the spec: the entry point that calls [run], and what
    becomes of the process when the promise of [run] rejects, are not in
    this file.  The spec has a fatal startup condition "surfaced
    immediately, process terminates with non-zero status": a rejection of
    [run] ends the process with the status [uncaught], which the theorems
    take to be other than 0.  The other statuses are the code's own: the
    argument of the [exit] that [run] or a loop has called. *)
Definition exitStatus (uncaught : Z) (out : outcome) : option Z :=
  match out with
  | StartingUp => None
  | ExitedAtStartup code => Some code
  | Rejected _ => Some uncaught
  | Launched p => exited p
  end.

(** * Properties *)

(** ** How [exec1] runs through the combinators *)

Section Exec.

Context {R : Type}.

Lemma exec1_observe (t u : itree ioE R) answers :
  observe t = observe u -> exec1 answers t = exec1 answers u.
Proof.
  intros H. destruct answers; cbn; rewrite H; reflexivity.
Qed.

Lemma exec1_ret (r : R) answers :
  exec1 answers (Ret r) = ([], Returned r answers).
Proof. destruct answers; reflexivity. Qed.

Lemma exec1_tau (t : itree ioE R) answers :
  exec1 answers (Tau t) =
  match answers with [] => ([], Pending) | _ :: rest => exec1 rest t end.
Proof. destruct answers; reflexivity. Qed.

Lemma exec1_nil (t : itree ioE R) :
  fst (exec1 [] t) = [].
Proof. cbn. destruct (observe t); reflexivity. Qed.

Lemma exec1_bind {S} (t : itree ioE S) (k : S -> itree ioE R) answers :
  exec1 answers (ITree.bind t k) =
  match exec1 answers t with
  | (tr, Returned r rest) =>
      let '(tr', s) := exec1 rest (k r) in ((tr ++ tr')%list, s)
  | (tr, Pending) => (tr, Pending)
  | (tr, Exited code) => (tr, Exited code)
  end.
Proof.
  revert t. induction answers as [|a rest IH]; intros t.
  - cbn. rewrite observe_bind. destruct (observe t) eqn:Ht; cbn; try reflexivity.
    destruct (observe (k r)); reflexivity.
  - cbn. rewrite observe_bind. destruct (observe t) eqn:Ht; cbn.
    + destruct (exec1 (a :: rest) (k r)) eqn:E. cbn in E. rewrite E. reflexivity.
    + apply IH.
    + destruct (exitCode e); [reflexivity|].
      rewrite IH. destruct (exec1 rest (k0 (a X e))) as [tr [|r r'|c]]; try reflexivity.
      destruct (exec1 r' (k r)). reflexivity.
Qed.

(** What is left of the answers is a suffix of them. *)
Lemma exec1_rest (t : itree ioE R) answers tr r rest :
  exec1 answers t = (tr, Returned r rest) ->
  (length rest <= length answers)%nat.
Proof.
  revert t tr. induction answers as [|a answers IH]; intros t tr; cbn.
  - destruct (observe t); intros H; inversion H; subst; cbn; lia.
  - destruct (observe t) as [r0|t'|X e k].
    + intros H; inversion H; subst; cbn; lia.
    + intros H. apply IH in H. lia.
    + destruct (exitCode e); [discriminate|].
      destruct (exec1 answers (k (a X e))) as [tr' s] eqn:E.
      intros H; inversion H; subst. apply IH in E. lia.
Qed.

(** The process has exited exactly when the last interaction is the call of
    [process.exit]. *)
Lemma exec1_exited (t : itree ioE R) answers tr code :
  exec1 answers t = (tr, Exited code) ->
  exists tr' o, tr = (tr' ++ [o])%list /\ isExit o = true.
Proof.
  revert t tr. induction answers as [|a answers IH]; intros t tr; cbn.
  - destruct (observe t); discriminate.
  - destruct (observe t) as [r0|t'|X e k].
    + discriminate.
    + apply IH.
    + destruct (exitCode e) eqn:Ex.
      * intros H; inversion H; subst. exists [], (Obs e (a X e)). split; [reflexivity|].
        destruct e; try discriminate; reflexivity.
      * destruct (exec1 answers (k (a X e))) as [tr' s] eqn:E.
        intros H; inversion H; subst. apply IH in E as (tr0 & o & -> & Ho).
        exists (Obs e (a X e) :: tr0), o. split; [reflexivity|assumption].
Qed.

End Exec.

Lemma exec1_trigger {X} (e : ioE X) answers :
  exec1 answers (ITree.trigger e) =
  match answers with
  | [] => ([], Pending)
  | a :: rest =>
      match exitCode e with
      | Some code => ([Obs e (a _ e)], Exited code)
      | None => ([Obs e (a _ e)], Returned (a _ e) rest)
      end
  end.
Proof.
  destruct answers as [|a rest]; [reflexivity|].
  cbn. destruct (exitCode e); [reflexivity|]. destruct rest; reflexivity.
Qed.

Lemma exec1_forever {R S} (t : itree ioE R) answers :
  exec1 answers (ITree.forever t : itree ioE S) =
  exec1 answers (ITree.bind t (fun _ => Tau (ITree.forever t))).
Proof. apply exec1_observe. reflexivity. Qed.

Lemma exec1_iter {I R} (body : I -> itree ioE (I + R)) (i : I) answers :
  exec1 answers (ITree.iter body i) =
  exec1 answers (ITree.bind (body i) (fun lr =>
     match lr with inl l => Tau (ITree.iter body l) | inr r => Ret r end)).
Proof. apply exec1_observe. reflexivity. Qed.

(** ** Invariants of the interactions of a task *)

Lemma always_ret P {R} (r : R) : always P (Ret r : itree ioE R).
Proof. intros answers. rewrite exec1_ret. constructor. Qed.

Lemma always_trigger (P : obs -> Prop) {X} (e : ioE X) :
  (forall x, P (Obs e x)) -> always P (ITree.trigger e).
Proof.
  intros H answers. rewrite exec1_trigger.
  destruct answers as [|a rest]; [constructor|].
  destruct (exitCode e); cbn; repeat constructor; apply H.
Qed.

Lemma always_bind P {R S} (t : itree ioE S) (k : S -> itree ioE R) :
  always P t -> (forall s, always P (k s)) -> always P (ITree.bind t k).
Proof.
  intros Ht Hk answers. rewrite exec1_bind.
  specialize (Ht answers).
  destruct (exec1 answers t) as [tr [|s rest|code]]; cbn in *; try assumption.
  specialize (Hk s rest). destruct (exec1 rest (k s)) as [tr' s']; cbn in *.
  apply Forall_app; split; assumption.
Qed.

Lemma always_observe P {R} (t u : itree ioE R) :
  observe t = observe u -> always P u -> always P t.
Proof.
  intros E H answers. rewrite (exec1_observe t u answers E). apply H.
Qed.

Lemma always_forever P {R S} (t : itree ioE R) :
  always P t -> always P (ITree.forever t : itree ioE S).
Proof.
  intros Ht answers.
  remember (length answers) as n eqn:Hn.
  revert answers Hn. induction n as [n IH] using lt_wf_ind. intros answers ->.
  rewrite exec1_forever, exec1_bind.
  specialize (Ht answers).
  destruct (exec1 answers t) as [tr [|r rest|code]] eqn:E; cbn in *; try assumption.
  rewrite exec1_tau. apply exec1_rest in E.
  destruct rest as [|a rest]; cbn.
  - rewrite app_nil_r. assumption.
  - specialize (IH (length rest) ltac:(cbn in E; lia) rest eq_refl).
    destruct (exec1 rest (ITree.forever t)) as [tr' s']; cbn in *.
    apply Forall_app; split; assumption.
Qed.

Lemma always_iter P {I R} (body : I -> itree ioE (I + R)) :
  (forall i, always P (body i)) -> forall i, always P (ITree.iter body i).
Proof.
  intros Hb i answers.
  remember (length answers) as n eqn:Hn.
  revert i answers Hn. induction n as [n IH] using lt_wf_ind. intros i answers ->.
  rewrite exec1_iter, exec1_bind.
  specialize (Hb i answers).
  destruct (exec1 answers (body i)) as [tr [|[l|r] rest|code]] eqn:E;
    cbn in *; try assumption.
  - rewrite exec1_tau. apply exec1_rest in E.
    destruct rest as [|a rest]; cbn.
    + rewrite app_nil_r. assumption.
    + specialize (IH (length rest) ltac:(cbn in E; lia) l rest eq_refl).
      destruct (exec1 rest (ITree.iter body l)) as [tr' s']; cbn in *.
      apply Forall_app; split; assumption.
  - rewrite exec1_ret. cbn. rewrite app_nil_r. assumption.
Qed.

Lemma always_impl (P Q : obs -> Prop) {R} (t : itree ioE R) :
  (forall o, P o -> Q o) -> always P t -> always Q t.
Proof.
  intros H Ht answers. eapply Forall_impl; [apply Ht|]. exact H.
Qed.

Lemma always_neverExits {R} (t : itree ioE R) :
  always (fun o => isExit o = false) t -> neverExits t.
Proof.
  intros H answers code E.
  destruct (exec1 answers t) as [tr s] eqn:Ex. cbn in E. subst s.
  specialize (H answers). rewrite Ex in H. cbn in H.
  apply exec1_exited in Ex as (tr' & o & -> & Ho).
  apply Forall_app in H as [_ H]. inversion H; subst. congruence.
Qed.

(** Splits a straight-line program into its interactions. *)
Ltac always_step :=
  lazymatch goal with
  | |- always _ (ITree.bind _ _) => apply always_bind; [|intros ?]
  | |- always _ (ITree.trigger _) => apply always_trigger; intros ?
  | |- always _ (Ret _) => apply always_ret
  | |- always _ (match ?x with _ => _ end) => destruct x
  | |- always _ (if ?x then _ else _) => destruct x
  end.

Section LoopInvariants.

Variable vars : gmap string string.

Lemma clearPending_always (P : obs -> Prop) :
  (forall o, isReconcile o = true -> P o) ->
  (forall msg x, P (Obs (LogInfo msg) x)) ->
  always P (Driver.clearPending vars).
Proof.
  intros Hr Hl. unfold Driver.clearPending.
  repeat always_step; try (apply Hr; reflexivity); try apply Hl.
  unfold Driver.clearNonces. apply always_iter. intros i.
  unfold Driver.clearNonce.
  repeat always_step; try (apply Hr; reflexivity); try apply Hl.
Qed.

Lemma submissionLoop_always (P : obs -> Prop) (r : role) :
  (forall x, P (Obs (SubmitNextBatch r) x)) ->
  (forall msg err x, P (Obs (LogError msg err) x)) ->
  (forall msg x, P (Obs (LogInfo msg) x)) ->
  (forall x, P (Obs (SetTimeout (parseInt10 (vars !!! "POLL_INTERVAL"))) x)) ->
  always P (Driver.submissionLoop vars (Driver.submitNextBatch r)).
Proof.
  intros Hs He Hi Ht. unfold Driver.submissionLoop. apply always_forever.
  unfold Driver.iteration, Driver.submitNextBatch.
  repeat always_step; auto.
Qed.

Lemma submissionLoop_neverExits (r : role) :
  neverExits (Driver.submissionLoop vars (Driver.submitNextBatch r)).
Proof.
  apply always_neverExits, submissionLoop_always; reflexivity.
Qed.

End LoopInvariants.

(** ** What a pool does is what each of its loops does *)

Lemma role_eqb_eq a b : role_eqb a b = true <-> a = b.
Proof. destruct a, b; cbn; split; congruence. Qed.

Lemma role_eqb_refl a : role_eqb a a = true.
Proof. destruct a; reflexivity. Qed.

Lemma role_eqb_neq a b : a <> b -> role_eqb a b = false.
Proof. destruct a, b; cbn; congruence. Qed.

Lemma ofRole_app r h1 h2 :
  ofRole r (h1 ++ h2) = (ofRole r h1 ++ ofRole r h2)%list.
Proof. unfold ofRole. rewrite List.filter_app, map_app. reflexivity. Qed.

Lemma ofRole_one r r' o :
  ofRole r [(r', o)] = if role_eqb r' r then [o] else [].
Proof. unfold ofRole. cbn. destruct (role_eqb r' r); reflexivity. Qed.

Lemma taskOf_setTask r r' t p :
  taskOf r (setTask r' t p) = if role_eqb r' r then Some t else taskOf r p.
Proof. destruct r, r'; reflexivity. Qed.

Lemma exited_setTask r t p : exited (setTask r t p) = exited p.
Proof. destruct r; reflexivity. Qed.

Lemma history_setTask r t p : history (setTask r t p) = history p.
Proof. destruct r; reflexivity. Qed.

Lemma runPool_exited schedule p code :
  exited p = Some code -> runPool schedule p = p.
Proof.
  revert p. induction schedule as [|[r a] s IH]; intros p H; [reflexivity|].
  cbn. rewrite H. apply IH, H.
Qed.

Lemma runPool_cons c schedule p :
  runPool (c :: schedule) p = runPool schedule (poolStep c p).
Proof. reflexivity. Qed.

Lemma runPool_app s1 s2 p :
  runPool (s1 ++ s2) p = runPool s2 (runPool s1 p).
Proof. apply fold_left_app. Qed.

(** The interactions of role [r] in any run of the pool are interactions of
    the loop of [r] run alone, against those of the answers that it was
    given. *)
Lemma pool_projection schedule r : forall p,
  exited p = None ->
  exists answers,
    ofRole r (history (runPool schedule p)) =
    (ofRole r (history p) ++
     match taskOf r p with
     | Some t => fst (exec1 answers t)
     | None => []
     end)%list.
Proof.
  induction schedule as [|[r' a] s IH]; intros p Hp.
  - exists []. change (runPool [] p) with p.
    destruct (taskOf r p); [rewrite exec1_nil|]; rewrite app_nil_r; reflexivity.
  - rewrite runPool_cons. unfold poolStep. rewrite Hp.
    destruct (taskOf r' p) as [t|] eqn:Ht; [|apply IH, Hp].
    destruct (observe t) as [v|t'|X e k] eqn:Ho; [destruct v| |].
    + destruct (IH (setTask r' t' p)) as [answers E]; [rewrite exited_setTask; exact Hp|].
      rewrite E, history_setTask, taskOf_setTask.
      destruct (role_eqb r' r) eqn:Hr.
      * apply role_eqb_eq in Hr. subst r'. rewrite Ht.
        exists (a :: answers). cbn. rewrite Ho. reflexivity.
      * exists answers. reflexivity.
    + destruct (exitCode e) as [code|] eqn:Hc.
      * rewrite (runPool_exited s _ code) by reflexivity.
        cbn [halt record history].
        rewrite ofRole_app, ofRole_one.
        destruct (role_eqb r' r) eqn:Hr.
        -- apply role_eqb_eq in Hr. subst r'. rewrite Ht.
           exists [a]. cbn. rewrite Ho, Hc. reflexivity.
        -- exists []. destruct (taskOf r p); [rewrite exec1_nil|]; reflexivity.
      * destruct (IH (setTask r' (k (a X e)) (record r' (Obs e (a X e)) p)))
          as [answers E]; [rewrite exited_setTask; exact Hp|].
        rewrite E, history_setTask, taskOf_setTask. cbn [record history taskOf].
        rewrite ofRole_app, ofRole_one.
        destruct (role_eqb r' r) eqn:Hr.
        -- apply role_eqb_eq in Hr. subst r'. rewrite Ht.
           exists (a :: answers). cbn. rewrite Ho, Hc.
           destruct (exec1 answers (k (a X e))). cbn. rewrite <- app_assoc. reflexivity.
        -- exists answers. rewrite app_nil_r.
           replace (taskOf r (record r' (Obs e (a X e)) p)) with (taskOf r p)
             by (destruct r; reflexivity).
           reflexivity.
Qed.

(** Loops are neither created nor dropped by running. *)
Lemma runPool_taskOf_None schedule r : forall p,
  taskOf r p = None -> taskOf r (runPool schedule p) = None.
Proof.
  induction schedule as [|[r' a] s IH]; intros p H; [exact H|].
  rewrite runPool_cons. apply IH. unfold poolStep.
  destruct (exited p); [|destruct (taskOf r' p) as [t|] eqn:Ht]; try exact H.
  assert (r' <> r) as Hne by (intros ->; congruence).
  destruct (observe t) as [v|t'|X e k]; [destruct v| |].
  - rewrite taskOf_setTask, role_eqb_neq by exact Hne. exact H.
  - destruct (exitCode e).
    + destruct r; exact H.
    + rewrite taskOf_setTask, role_eqb_neq by exact Hne. destruct r; exact H.
Qed.

Lemma runPool_taskOf_Some schedule r : forall p,
  is_Some (taskOf r p) -> is_Some (taskOf r (runPool schedule p)).
Proof.
  induction schedule as [|[r' a] s IH]; intros p H; [exact H|].
  rewrite runPool_cons. apply IH. unfold poolStep.
  destruct (exited p); [|destruct (taskOf r' p) as [t|] eqn:Ht]; try exact H.
  destruct (observe t) as [v|t'|X e k]; [destruct v| |].
  - rewrite taskOf_setTask. destruct (role_eqb r' r); [eexists; reflexivity|exact H].
  - destruct (exitCode e).
    + destruct r; exact H.
    + rewrite taskOf_setTask. destruct (role_eqb r' r); [eexists; reflexivity|].
      destruct r; exact H.
Qed.

(** ** Symbolic execution *)

Lemma exec1_bind_bind {R S T} (t : itree ioE R) (k1 : R -> itree ioE S)
    (k2 : S -> itree ioE T) answers :
  exec1 answers (ITree.bind (ITree.bind t k1) k2) =
  exec1 answers (ITree.bind t (fun x => ITree.bind (k1 x) k2)).
Proof.
  rewrite !exec1_bind.
  destruct (exec1 answers t) as [tr [|r rest|code]]; try reflexivity.
  rewrite exec1_bind.
  destruct (exec1 rest (k1 r)) as [tr1 [|s rest1|code]]; try reflexivity.
  destruct (exec1 rest1 (k2 s)) as [tr2 s2]. rewrite app_assoc. reflexivity.
Qed.

Lemma exec1_ret_bind {R S} (r : R) (k : R -> itree ioE S) answers :
  exec1 answers (ITree.bind (Ret r) k) = exec1 answers (k r).
Proof. apply exec1_observe. reflexivity. Qed.

Lemma exec1_vis {X S} (e : ioE X) (k : X -> itree ioE S) a rest :
  exec1 (a :: rest) (ITree.bind (ITree.trigger e) k) =
  match exitCode e with
  | Some code => ([Obs e (a _ e)], Exited code)
  | None => let '(tr, s) := exec1 rest (k (a _ e)) in (Obs e (a _ e) :: tr, s)
  end.
Proof.
  rewrite exec1_bind, exec1_trigger. destruct (exitCode e); reflexivity.
Qed.

Lemma exec1_vis_nil {X S} (e : ioE X) (k : X -> itree ioE S) :
  exec1 [] (ITree.bind (ITree.trigger e) k) = ([], Pending).
Proof. reflexivity. Qed.

Ltac exec_step :=
  first
  [ rewrite exec1_bind_bind
  | rewrite exec1_ret_bind
  | rewrite exec1_vis; cbn [exitCode]
  | rewrite exec1_vis_nil
  | rewrite exec1_ret
  | rewrite exec1_tau ].

Lemma exec1_bind_ext {R S} (t : itree ioE R) (k k' : R -> itree ioE S) answers :
  (forall x rest, exec1 rest (k x) = exec1 rest (k' x)) ->
  exec1 answers (ITree.bind t k) = exec1 answers (ITree.bind t k').
Proof.
  intros H. rewrite !exec1_bind.
  destruct (exec1 answers t) as [tr [|r rest|code]]; try reflexivity.
  rewrite H. reflexivity.
Qed.


(** ** The reconciliation *)

Section Reconciliation.

Variable vars : gmap string string.

Abbreviation numConf := (parseInt10 (vars !!! "NUM_CONFIRMATIONS")).

Lemma clearNonces_unfold i pendingTxs answers :
  exec1 answers (Driver.clearNonces vars i pendingTxs) =
  exec1 answers
    (if (i <? pendingTxs)%N then
       r <- Driver.clearNonce vars i;;
       match r with
       | inl err => Ret (inl err)
       | inr _ => Tau (Driver.clearNonces vars (i + 1) pendingTxs)
       end
     else Ret (inr tt)).
Proof.
  unfold Driver.clearNonces at 1. rewrite exec1_iter.
  destruct (i <? pendingTxs)%N.
  - rewrite exec1_bind_bind. apply exec1_bind_ext.
    intros [err|[]] rest; rewrite exec1_ret_bind; reflexivity.
  - rewrite exec1_ret_bind. reflexivity.
Qed.

Lemma clearNonces_rounds pendingTxs n : forall i answers,
  N.to_nat (pendingTxs - i) = n ->
  roundsFrom numConf pendingTxs i
    (fst (exec1 answers (Driver.clearNonces vars i pendingTxs)))
    (settled (snd (exec1 answers (Driver.clearNonces vars i pendingTxs)))).
Proof.
  induction n as [|n IH]; intros i answers Hn;
    rewrite clearNonces_unfold;
    destruct (N.ltb_spec i pendingTxs) as [Hlt|Hge]; try lia.
  - repeat exec_step. cbn. constructor. assumption.
  - unfold Driver.clearNonce. repeat exec_step.
    destruct answers as [|a1 answers]; repeat exec_step; cbn; [constructor|].
    destruct (a1 _ GetAddress) as [err|address]; repeat exec_step; cbn.
    { constructor; assumption. }
    destruct answers as [|a2 answers]; repeat exec_step; cbn; [constructor; assumption|].
    destruct (a2 _ (SendTransaction _)) as [err|response]; repeat exec_step; cbn.
    { constructor; assumption. }
    destruct answers as [|a3 answers]; repeat exec_step; cbn; [constructor; assumption|].
    destruct (a3 _ (LogInfo _)).
    destruct answers as [|a4 answers]; repeat exec_step; cbn; [constructor; assumption|].
    destruct (a4 _ (GetReceiptWithResubmission _ _ _ _)) as [err|receipt]; repeat exec_step; cbn.
    { constructor; assumption. }
    specialize (IH (i + 1)%N).
    destruct answers as [|a5 answers].
    + cbn. apply (rounds_next _ _ _ _ _ _ [] None); [assumption|constructor].
    + specialize (IH answers ltac:(lia)).
      destruct (exec1 answers (Driver.clearNonces vars (i + 1) pendingTxs)) as [tr s].
      cbn in *. apply (rounds_next _ _ _ _ _ _ tr); assumption.
Qed.

Lemma clearPending_reconciled answers :
  reconciled numConf
    (fst (exec1 answers (Driver.clearPending vars)))
    (settled (snd (exec1 answers (Driver.clearPending vars)))).
Proof.
  unfold Driver.clearPending.
  destruct answers as [|a1 answers]; repeat exec_step; cbn; [constructor|].
  destruct (a1 _ (GetTransactionCount pending)) as [err|p]; repeat exec_step; cbn.
  { constructor. }
  destruct answers as [|a2 answers]; repeat exec_step; cbn; [constructor|].
  destruct (a2 _ (GetTransactionCount latest)) as [err|l]; repeat exec_step; cbn.
  { constructor. }
  destruct (N.ltb_spec l p) as [Hlt|Hge].
  - destruct answers as [|a3 answers]; repeat exec_step; cbn; [constructor; assumption|].
    destruct (a3 _ (LogInfo _)).
    pose proof (clearNonces_rounds p _ l answers eq_refl) as H.
    destruct (exec1 answers (Driver.clearNonces vars l p)) as [tr s].
    cbn in *. constructor; assumption.
  - repeat exec_step. cbn. constructor. assumption.
Qed.

Lemma clearPending_neverExits : neverExits (Driver.clearPending vars).
Proof.
  apply always_neverExits, clearPending_always.
  - intros [X e x] H. destruct e; try discriminate; reflexivity.
  - reflexivity.
Qed.

End Reconciliation.

(** ** What a reconciliation looks like *)

Lemma nonceRange_nil l p : (p <= l)%N -> nonceRange l p = [].
Proof.
  intros H. unfold nonceRange. replace (p - l)%N with 0%N by lia. reflexivity.
Qed.

Lemma nonceRange_cons l p :
  (l < p)%N -> nonceRange l p = l :: nonceRange (l + 1) p.
Proof.
  intros H. unfold nonceRange.
  replace (N.to_nat (p - l)) with (S (N.to_nat (p - (l + 1)))) by lia.
  cbn [seq map]. f_equal; [lia|].
  rewrite <- seq_shift, map_map. apply map_ext. intros k. lia.
Qed.

Lemma roundsFrom_sentNonces nc p i tr o :
  roundsFrom nc p i tr o ->
  sentNonces tr `prefix_of` nonceRange i p /\
  (o = Some (inr tt) -> sentNonces tr = nonceRange i p).
Proof.
  induction 1 as [i H|i|i err H|i a H|i a err H|i a r H|i a r H|i a r err H
                 |i a r rc tr o H Hr [IH1 IH2]];
    try rewrite (nonceRange_cons i p H); cbn.
  - rewrite nonceRange_nil by assumption. split; [reflexivity|reflexivity].
  - split; [apply prefix_nil|discriminate].
  - split; [apply prefix_nil|discriminate].
  - split; [apply prefix_nil|discriminate].
  - split; [apply prefix_cons, prefix_nil|discriminate].
  - split; [apply prefix_cons, prefix_nil|discriminate].
  - split; [apply prefix_cons, prefix_nil|discriminate].
  - split; [apply prefix_cons, prefix_nil|discriminate].
  - split; [apply prefix_cons, IH1|]. intros E. f_equal. apply IH2, E.
Qed.

Lemma roundsFrom_rejected nc p i tr o :
  roundsFrom nc p i tr o ->
  Exists (fun x => rejected x = true) tr -> exists err, o = Some (inl err).
Proof.
  induction 1; cbn; rewrite ?Exists_cons, ?Exists_nil; cbn;
    try (intuition discriminate); try (intros _; eexists; reflexivity).
Qed.

Lemma reconciled_rejected nc tr o :
  reconciled nc tr o ->
  Exists (fun x => rejected x = true) tr -> exists err, o = Some (inl err).
Proof.
  destruct 1; cbn; rewrite ?Exists_cons, ?Exists_nil; cbn;
    try (intuition discriminate); try (intros _; eexists; reflexivity).
  intros [|[|[|]]]; try discriminate. eapply roundsFrom_rejected; eassumption.
Qed.

Section ReconcilerOrder.

Variable vars : gmap string string.

(** C2.  The reconciler, for the counts [p] (pending) and [l] (latest) that
    it reads: it never exits by itself; when [p <= l] it does nothing more
    and returns; otherwise what it does is a run of rounds, one per nonce
    from [l] upwards, each made of the four interactions of [clearedRound]
    (own address, zero-value transfer to it at that nonce, log, Confirmation
    Waiter with no prior attempt and 60000 ms), the next round starting only
    once the wait of the one before has come back.  The nonces broadcast are
    an initial part of [l, l+1, ..., p-1] in any run, and all of it in a run
    that completes. *)
Theorem reconciler_clears_in_order (a1 a2 : answerer) answers p l tr st :
  a1 _ (GetTransactionCount pending) = inr p ->
  a2 _ (GetTransactionCount latest) = inr l ->
  exec1 (a1 :: a2 :: answers) (Driver.clearPending vars) = (tr, st) ->
  (forall code, st <> Exited code) /\
  ((p <= l)%N ->
     tr = [readCount pending p; readCount latest l] /\
     st = Returned (inr tt) answers) /\
  ((l < p)%N ->
     sentNonces tr `prefix_of` nonceRange l p /\
     (settled st = Some (inr tt) -> sentNonces tr = nonceRange l p) /\
     (tr = [readCount pending p; readCount latest l] \/
      exists rounds,
        tr = readCount pending p :: readCount latest l ::
             Obs (LogInfo "Detected pending transactions. Clearing all transactions!") tt ::
             rounds /\
        roundsFrom (parseInt10 (vars !!! "NUM_CONFIRMATIONS")) p l rounds (settled st))).
Proof.
  intros H1 H2 E. split.
  { intros code ->. eapply (clearPending_neverExits vars). rewrite E. reflexivity. }
  revert E. unfold Driver.clearPending.
  repeat exec_step. rewrite H1. repeat exec_step. rewrite H2.
  destruct (N.ltb_spec l p) as [Hlt|Hge].
  - destruct answers as [|a3 answers]; repeat exec_step; cbn.
    { intros [= <- <-]. split; [lia|]. intros _. cbn.
      split; [apply prefix_nil|]. split; [discriminate|]. left; reflexivity. }
    destruct (a3 _ (LogInfo _)).
    pose proof (clearNonces_rounds vars p _ l answers eq_refl) as H.
    destruct (exec1 answers (Driver.clearNonces vars l p)) as [tr' s].
    cbn in H. intros [= <- <-]. split; [lia|]. intros _.
    destruct (roundsFrom_sentNonces _ _ _ _ _ H) as [Hp He].
    split; [exact Hp|]. split; [exact He|]. right. eexists. split; [reflexivity|exact H].
  - repeat exec_step. intros [= <- <-]. split; [|lia].
    intros _. split; reflexivity.
Qed.
End ReconcilerOrder.

Lemma reconciler_clears_in_order_witness :
  sentNonces
    (fst (exec1 (reconcilingAnswers window58)
            (Driver.clearPending (<["NUM_CONFIRMATIONS" := "2"]> ∅))))
  = [5; 6; 7]%N.
Proof.
  pose proof (reconciler_clears_in_order (<["NUM_CONFIRMATIONS" := "2"]> ∅)
    (chainReply window58) (chainReply window58)
    (chainReply window58 :: clearingAnswers 3 window58) 8%N 5%N _ _
    eq_refl eq_refl (surjective_pairing _)) as (_ & _ & H).
  destruct (H eq_refl) as (_ & H2 & _).
  apply H2. vm_compute. reflexivity.
Defined.

(** ** The submission loop *)

Section SubmissionLoop.

Variable vars : gmap string string.
Variable r : role.

Lemma submissionLoop_unfold answers :
  exec1 answers (Driver.submissionLoop vars (Driver.submitNextBatch r)) =
  exec1 answers
    (x <- ITree.trigger (SubmitNextBatch r);;
     match x with
     | inl err =>
         ITree.trigger (LogError "Error submitting batch" (Some err));;
         ITree.trigger (LogInfo "Retrying...");;
         ITree.trigger (SetTimeout (parseInt10 (vars !!! "POLL_INTERVAL")));;
         Tau (Driver.submissionLoop vars (Driver.submitNextBatch r))
     | inr _ =>
         ITree.trigger (SetTimeout (parseInt10 (vars !!! "POLL_INTERVAL")));;
         Tau (Driver.submissionLoop vars (Driver.submitNextBatch r))
     end).
Proof.
  unfold Driver.submissionLoop at 1. rewrite exec1_forever.
  change (ITree.forever (Driver.iteration vars (Driver.submitNextBatch r)))
    with (Driver.submissionLoop vars (Driver.submitNextBatch r)).
  unfold Driver.iteration, Driver.submitNextBatch at 1.
  rewrite !exec1_bind_bind. apply exec1_bind_ext. intros [err|receipt] rest.
  - rewrite !exec1_bind_bind. reflexivity.
  - rewrite exec1_bind_bind, exec1_ret_bind. reflexivity.
Qed.

Lemma submissionLoop_rounds outcomes :
  exec1 (flat_map answersFor outcomes)
    (Driver.submissionLoop vars (Driver.submitNextBatch r)) =
  (flat_map (iterationTrace r (parseInt10 (vars !!! "POLL_INTERVAL"))) outcomes,
   Pending).
Proof.
  induction outcomes as [|[err|receipt] outcomes IH]; rewrite submissionLoop_unfold.
  - reflexivity.
  - cbn [flat_map answersFor app]. repeat exec_step. cbn [submitted].
    repeat exec_step. rewrite IH. reflexivity.
  - cbn [flat_map answersFor app]. repeat exec_step. cbn [submitted].
    repeat exec_step. rewrite IH. reflexivity.
Qed.

Lemma submissionLoop_pending answers :
  snd (exec1 answers (Driver.submissionLoop vars (Driver.submitNextBatch r))) = Pending.
Proof.
  pose proof (submissionLoop_neverExits vars r answers) as H.
  destruct (exec1 answers _) as [tr [|[]|code]]; [reflexivity|].
  exfalso. eapply H. reflexivity.
Qed.

Lemma submissionLoop_prefix answers :
  exists outcomes,
    fst (exec1 answers (Driver.submissionLoop vars (Driver.submitNextBatch r)))
    `prefix_of`
    flat_map (iterationTrace r (parseInt10 (vars !!! "POLL_INTERVAL"))) outcomes.
Proof.
  remember (length answers) as n eqn:Hn.
  revert answers Hn. induction n as [n IH] using lt_wf_ind. intros answers ->.
  rewrite submissionLoop_unfold.
  destruct answers as [|a1 answers]; repeat exec_step.
  { exists []. apply prefix_nil. }
  destruct (a1 _ (SubmitNextBatch r)) as [err|receipt].
  - destruct answers as [|a2 answers]; repeat exec_step.
    { exists [inl err]. cbn. apply prefix_cons, prefix_nil. }
    destruct (a2 _ (LogError _ _)).
    destruct answers as [|a3 answers]; repeat exec_step.
    { exists [inl err]. cbn. do 2 apply prefix_cons. apply prefix_nil. }
    destruct (a3 _ (LogInfo _)).
    destruct answers as [|a4 answers]; repeat exec_step.
    { exists [inl err]. cbn. do 3 apply prefix_cons. apply prefix_nil. }
    destruct (a4 _ (SetTimeout _)).
    destruct answers as [|a5 answers].
    { exists [inl err]. cbn. reflexivity. }
    destruct (IH (length answers) ltac:(cbn; lia) answers eq_refl) as [outcomes H].
    exists (inl err :: outcomes).
    destruct (exec1 answers _) as [tr s]. cbn in *.
    do 4 apply prefix_cons. exact H.
  - destruct answers as [|a2 answers]; repeat exec_step.
    { exists [inr receipt]. cbn. apply prefix_cons, prefix_nil. }
    destruct (a2 _ (SetTimeout _)).
    destruct answers as [|a3 answers].
    { exists [inr receipt]. cbn. reflexivity. }
    destruct (IH (length answers) ltac:(cbn; lia) answers eq_refl) as [outcomes H].
    exists (inr receipt :: outcomes).
    destruct (exec1 answers _) as [tr s]. cbn in *.
    do 2 apply prefix_cons. exact H.
Qed.

(** C3.  The [while (true)] of a loop, whatever [submitNextBatch] gives:
    a rejection is caught, logged as an error, followed by [Retrying...],
    and the round ends like a successful one, with a sleep of
    [parseInt(POLL_INTERVAL)]; after any list of outcomes, consecutive
    failures included, the loop has made one call per outcome and is still
    running; no run of it ever exits or returns, and every run is made of
    such rounds.  With the clear-pending flag off, [loop] is this and
    nothing else. *)
Theorem submission_loop_keeps_polling :
  let pollInterval := parseInt10 (vars !!! "POLL_INTERVAL") in
  let task := Driver.submissionLoop vars (Driver.submitNextBatch r) in
  (forall outcomes,
     exec1 (flat_map answersFor outcomes) task =
     (flat_map (iterationTrace r pollInterval) outcomes, Pending)) /\
  (forall answers,
     snd (exec1 answers task) = Pending /\
     exists outcomes,
       fst (exec1 answers task)
       `prefix_of` flat_map (iterationTrace r pollInterval) outcomes) /\
  (forall answers,
     exec1 answers (Driver.loop vars false (Driver.submitNextBatch r)) =
     exec1 answers task).
Proof.
  cbn zeta. split; [exact submissionLoop_rounds|]. split.
  - intros answers. split; [apply submissionLoop_pending|apply submissionLoop_prefix].
  - intros answers. unfold Driver.loop. rewrite exec1_ret_bind. reflexivity.
Qed.

End SubmissionLoop.

(** ** Startup *)

Section Startup.

Variable env : gmap string string.

Lemma truthy_lookup_total k v :
  env !!! k = String "t" v <-> env !! k = Some (String "t" v).
Proof.
  rewrite lookup_total_alt. destruct (env !! k) as [s|]; cbn; split; congruence.
Qed.

Lemma copied_lookup (entries : list (string * string)) k : forall vars : gmap string string,
  In k (map snd entries) \/ vars !!! k = env !!! k ->
  fold_left (fun vars '(_, val) => <[val := env !!! val]> vars) entries vars !!! k
  = env !!! k.
Proof.
  induction entries as [|[key val] entries IH]; intros vars H; cbn.
  - destruct H as [[]|H]; exact H.
  - apply IH. destruct (decide (val = k)) as [->|Hne].
    + right. apply lookup_total_insert_eq.
    + destruct H as [[H|H]|H]; [contradiction|left; exact H|].
      right. rewrite lookup_total_insert_ne by exact Hne. exact H.
Qed.

Lemma loadedVars_lookup k :
  In k (map snd Driver.requiredEnvVarsEntries) -> loadedVars env !!! k = env !!! k.
Proof. intros H. apply copied_lookup. left. exact H. Qed.

Lemma checkRequired_exec (entries : list (string * string)) : forall vars answers,
  exec1 answers (Driver.checkRequired env entries vars) =
  match List.find (fun val => negb (truthy (env !! val))) (map snd entries) with
  | None =>
      ([], Returned
             (fold_left (fun vars '(_, val) => <[val := env !!! val]> vars) entries vars)
             answers)
  | Some val =>
      match answers with
      | [] => ([], Pending)
      | [a1] =>
          ([Obs (LogError ("Missing enviornment variable: " ++ val) None) tt], Pending)
      | a1 :: a2 :: _ =>
          ([Obs (LogError ("Missing enviornment variable: " ++ val) None) tt;
            Obs (ProcessExit 1) tt], Exited 1)
      end
  end.
Proof.
  induction entries as [|[key val] entries IH]; intros vars answers; cbn.
  - apply exec1_ret.
  - destruct (negb (truthy (env !! val))).
    + destruct answers as [|a1 answers]; repeat exec_step; [reflexivity|].
      destruct (a1 _ (LogError _ _)).
      destruct answers as [|a2 answers]; repeat exec_step; [reflexivity|].
      destruct (a2 _ (ProcessExit _)). reflexivity.
    + rewrite exec1_ret_bind. apply IH.
Qed.

Lemma exec1_bind_returned {R S} (t : itree ioE S) (k : S -> itree ioE R)
    answers tr r rest :
  exec1 answers (ITree.bind t k) = (tr, Returned r rest) ->
  exists tr1 s rest1 tr2,
    exec1 answers t = (tr1, Returned s rest1) /\
    exec1 rest1 (k s) = (tr2, Returned r rest) /\
    tr = (tr1 ++ tr2)%list.
Proof.
  rewrite exec1_bind.
  destruct (exec1 answers t) as [tr1 [|s rest1|code]]; try discriminate.
  destruct (exec1 rest1 (k s)) as [tr2 s2] eqn:E.
  intros [= <- ->]. exists tr1, s, rest1, tr2. auto.
Qed.

Lemma always_bind_returned P {R S} (t : itree ioE S) (k : S -> itree ioE R) :
  always P t ->
  (forall answers tr s rest,
     exec1 answers t = (tr, Returned s rest) -> always P (k s)) ->
  always P (ITree.bind t k).
Proof.
  intros Ht Hk answers. rewrite exec1_bind.
  specialize (Ht answers).
  destruct (exec1 answers t) as [tr [|s rest|code]] eqn:E; cbn in *; try assumption.
  specialize (Hk _ _ _ _ E rest). destruct (exec1 rest (k s)) as [tr' s']; cbn in *.
  apply Forall_app; split; assumption.
Qed.

Lemma checkRequired_always P (entries : list (string * string)) : forall vars,
  (forall msg err x, P (Obs (LogError msg err) x)) ->
  (forall code x, P (Obs (ProcessExit code) x)) ->
  always P (Driver.checkRequired env entries vars).
Proof.
  induction entries as [|[key val] entries IH]; intros vars He Hx; cbn.
  - apply always_ret.
  - apply always_bind; [|intros _; apply IH; assumption].
    destruct (negb _); repeat always_step; auto.
Qed.

Lemma checkRequired_returned vars answers tr s rest :
  exec1 answers (Driver.checkRequired env Driver.requiredEnvVarsEntries vars)
  = (tr, Returned s rest) ->
  firstMissing env = None /\
  s = fold_left (fun vars '(_, val) => <[val := env !!! val]> vars)
        Driver.requiredEnvVarsEntries vars.
Proof.
  rewrite checkRequired_exec. fold (firstMissing env).
  destruct (firstMissing env) as [val|].
  - destruct answers as [|a1 [|a2 answers]]; discriminate.
  - intros [= _ <- _]. auto.
Qed.

Lemma run_always : always (startupObs env) (Driver.run env).
Proof.
  unfold Driver.run. always_step; [always_step; exact I|].
  apply always_bind_returned.
  { apply checkRequired_always; intros; exact I. }
  intros answers tr vars rest E.
  apply checkRequired_returned in E as [_ ->]. fold (loadedVars env).
  unfold Driver.newSequencerSigner.
  repeat always_step; try exact I; reflexivity.
Qed.

Ltac returned_step H :=
  lazymatch type of H with
  | exec1 _ (ITree.bind _ _) = _ =>
      apply exec1_bind_returned in H as (? & [] & ? & ? & _ & H & _)
  | exec1 _ (Ret (inl _)) = (_, Returned (inr _) _) =>
      rewrite exec1_ret in H; discriminate
  end.

Lemma returned_inr_inj {A B} (tr tr' : list obs) (b b' : B) rest rest' :
  (tr, Returned (inr b : A + B) rest) = (tr', Returned (inr b') rest') -> b = b'.
Proof. intros H. inversion H. reflexivity. Qed.

Lemma run_returned answers tr loops rest :
  exec1 answers (Driver.run env) = (tr, Returned (inr loops) rest) ->
  firstMissing env = None /\
  loops = Driver.launch (loadedVars env) (clearFlag env).
Proof.
  unfold Driver.run. intros H.
  apply exec1_bind_returned in H as (? & ? & ? & ? & _ & H & _).
  apply exec1_bind_returned in H as (? & vars & ? & ? & Hc & H & _).
  apply checkRequired_returned in Hc as [Hm ->]. fold (loadedVars env) in H.
  split; [exact Hm|].
  repeat returned_step H.
  rewrite exec1_ret in H. apply returned_inr_inj in H. subst loops. reflexivity.
Qed.

End Startup.

(** ** The loops of a process *)

Lemma loop_always vars clear r :
  always (loopObs vars r) (Driver.loop vars clear (Driver.submitNextBatch r)).
Proof.
  unfold Driver.loop. apply always_bind.
  - destruct clear; [|apply always_ret].
    apply always_bind.
    + apply clearPending_always.
      * intros [X e x] H. destruct e; try discriminate; exact I.
      * intros; exact I.
    + intros [err|[]]; repeat always_step; exact I.
  - intros _. apply submissionLoop_always; intros; try exact I; reflexivity.
Qed.

Lemma in_ofRole r o h : In (r, o) h -> In o (ofRole r h).
Proof.
  intros H. unfold ofRole. apply in_map_iff. exists (r, o). split; [reflexivity|].
  apply filter_In. split; [exact H|]. apply role_eqb_refl.
Qed.

Lemma ofRole_in r o h : In o (ofRole r h) -> In (r, o) h.
Proof.
  unfold ofRole. intros H. apply in_map_iff in H as ([r' o'] & <- & H).
  apply filter_In in H as [H Hr]. apply role_eqb_eq in Hr. cbn in Hr. subst r'.
  exact H.
Qed.

(** What holds of every interaction of every loop holds of the history. *)
Lemma pool_always (P : role -> obs -> Prop) schedule p :
  exited p = None -> history p = [] ->
  (forall r t, taskOf r p = Some t -> always (P r) t) ->
  Forall (fun c => P (fst c) (snd c)) (history (runPool schedule p)).
Proof.
  intros He Hh Ht. apply List.Forall_forall. intros [r o] Hin.
  apply in_ofRole in Hin.
  destruct (pool_projection schedule r p He) as [answers E].
  rewrite E, Hh in Hin. cbn [ofRole List.filter map app] in Hin.
  destruct (taskOf r p) as [t|] eqn:Hr; [|destruct Hin].
  specialize (Ht r t Hr answers).
  eapply List.Forall_forall in Ht; [exact Ht|exact Hin].
Qed.

Lemma startPool_launch vars clear :
  exited (startPool (Driver.launch vars clear)) = None /\
  history (startPool (Driver.launch vars clear)) = [] /\
  forall r,
    taskOf r (startPool (Driver.launch vars clear)) =
    if String.eqb (vars !!! runFlag r) "true"
    then Some (Driver.loop vars clear (Driver.submitNextBatch r))
    else None.
Proof.
  unfold Driver.launch.
  destruct (String.eqb (vars !!! "RUN_TX_BATCH_SUBMITTER") "true") eqn:E1;
    destruct (String.eqb (vars !!! "RUN_STATE_BATCH_SUBMITTER") "true") eqn:E2;
    (split; [reflexivity|split; [reflexivity|]]);
    intros [|]; cbn [runFlag]; rewrite ?E1, ?E2; reflexivity.
Qed.

Section Process.

Variable env : gmap string string.

Lemma runFlag_required r : In (runFlag r) (map snd Driver.requiredEnvVarsEntries).
Proof. destruct r; cbn; auto 20. Qed.

Lemma flag_true k :
  In k (map snd Driver.requiredEnvVarsEntries) ->
  String.eqb (loadedVars env !!! k) "true" = true <-> env !! k = Some "true".
Proof.
  intros H. rewrite String.eqb_eq, (loadedVars_lookup env k H).
  apply truthy_lookup_total.
Qed.

Lemma process_trace startup schedule :
  fst (process env startup schedule) = fst (exec1 startup (Driver.run env)).
Proof.
  unfold process.
  destruct (exec1 startup (Driver.run env)) as [tr [|[err|loops] rest|code]];
    reflexivity.
Qed.

Lemma process_launched startup schedule tr p :
  process env startup schedule = (tr, Launched p) ->
  firstMissing env = None /\
  p = runPool schedule (startPool (Driver.launch (loadedVars env) (clearFlag env))).
Proof.
  unfold process.
  destruct (exec1 startup (Driver.run env)) as [tr' [|[err|loops] rest|code]] eqn:E;
    try discriminate.
  intros H. apply run_returned in E as [Hm ->]. split; [exact Hm|].
  inversion H. reflexivity.
Qed.

Lemma process_startup_always startup schedule :
  Forall (startupObs env) (fst (process env startup schedule)).
Proof. rewrite process_trace. apply run_always. Qed.

Lemma process_history_always startup schedule tr p :
  process env startup schedule = (tr, Launched p) ->
  Forall (fun c => loopObs (loadedVars env) (fst c) (snd c)) (history p).
Proof.
  intros H. apply process_launched in H as [_ ->].
  destruct (startPool_launch (loadedVars env) (clearFlag env)) as (He & Hh & Ht).
  apply pool_always; [exact He|exact Hh|].
  intros r t. rewrite Ht.
  destruct (String.eqb _ _); [|discriminate].
  intros [= <-]. apply loop_always.
Qed.

End Process.

Lemma startup_no_submit env o : startupObs env o -> isSubmit o = false.
Proof. destruct o as [X e x]. destruct e; cbn; intros H; try reflexivity; destruct H. Qed.

Lemma isSubmitOf_isSubmit r o : isSubmit o = false -> isSubmitOf r o = false.
Proof. destruct o as [X e x]. destruct e; cbn; congruence. Qed.

Lemma loopObs_submitOf vars r r' o :
  loopObs vars r' o -> isSubmitOf r o = true -> r' = r.
Proof.
  destruct o as [X e x]. destruct e; cbn; try discriminate.
  intros -> H. apply role_eqb_eq in H. exact H.
Qed.

(** C7.  When the variable that enables a role is anything but ['true'],
    no loop is fired for the role: in whatever way the process runs, the
    pool has no task for it, the history has no interaction of it, and
    [submitNextBatch] of its Submitter is called by nobody, neither
    during startup nor by the other loop. *)
Theorem disabled_role_never_scheduled env startup schedule tr out r :
  env !! runFlag r <> Some "true" ->
  process env startup schedule = (tr, out) ->
  Forall (fun o => isSubmitOf r o = false) tr /\
  forall p, out = Launched p ->
    taskOf r p = None /\
    ofRole r (history p) = [] /\
    Forall (fun c => isSubmitOf r (snd c) = false) (history p).
Proof.
  intros Hflag H. split.
  - pose proof (process_startup_always env startup schedule) as Hs.
    rewrite H in Hs. cbn [fst] in Hs.
    eapply Forall_impl; [exact Hs|].
    intros o Ho. apply isSubmitOf_isSubmit, (startup_no_submit env), Ho.
  - intros p ->. pose proof (process_history_always env _ _ _ _ H) as Hh.
    apply process_launched in H as [_ Hp].
    destruct (startPool_launch (loadedVars env) (clearFlag env)) as (He & Hn & Ht).
    assert (taskOf r (startPool (Driver.launch (loadedVars env) (clearFlag env))) = None)
      as Hr.
    { rewrite Ht. destruct (String.eqb _ _) eqn:E; [|reflexivity].
      apply flag_true in E; [contradiction|apply runFlag_required]. }
    assert (ofRole r (history p) = []) as Hnil.
    { destruct (pool_projection schedule r _ He) as [answers E].
      rewrite Hp, E, Hn, Hr. reflexivity. }
    split; [rewrite Hp; apply runPool_taskOf_None, Hr|]. split; [exact Hnil|].
    apply List.Forall_forall. intros [r' o] Hin.
    eapply List.Forall_forall in Hh; [|exact Hin]. cbn [fst snd] in *.
    destruct (isSubmitOf r o) eqn:Hs; [|reflexivity].
    apply (loopObs_submitOf _ _ _ _ Hh) in Hs. subst r'.
    apply in_ofRole in Hin. rewrite Hnil in Hin. destruct Hin.
Qed.

Lemma disabled_role_never_scheduled_witness :
  exists tr p,
    process (envWith "true" "TRUE" "false") startupOk
      [(TxBatch, idle); (StateBatch, idle); (TxBatch, idle); (StateBatch, idle)]
    = (tr, Launched p) /\
    taskOf StateBatch p = None /\
    ofRole StateBatch (history p) = [] /\
    length (history p) = 2%nat.
Proof.
  assert (exists tr p,
    process (envWith "true" "TRUE" "false") startupOk
      [(TxBatch, idle); (StateBatch, idle); (TxBatch, idle); (StateBatch, idle)]
    = (tr, Launched p) /\ length (history p) = 2%nat) as (tr & p & H & Hl)
    by (eexists _, _; vm_compute; split; reflexivity).
  exists tr, p. split; [exact H|].
  assert (envWith "true" "TRUE" "false" !! runFlag StateBatch <> Some "true") as Hf
    by (vm_compute; discriminate).
  destruct (disabled_role_never_scheduled _ _ _ _ _ StateBatch Hf H) as [_ Hp].
  destruct (Hp p eq_refl) as (H1 & H2 & _). auto.
Defined.

(** ** The two phases of a loop *)

Lemma loop_exec vars r answers :
  exec1 answers (Driver.loop vars true (Driver.submitNextBatch r)) =
  match exec1 answers (Driver.clearPending vars) with
  | (tr, Returned (inl err) rest) =>
      match rest with
      | [] => (tr, Pending)
      | [_] =>
          ((tr ++ [Obs (LogError "Cannot clear transactions" (Some err)) tt])%list,
           Pending)
      | _ :: _ :: _ =>
          ((tr ++ [Obs (LogError "Cannot clear transactions" (Some err)) tt;
                   Obs (ProcessExit 1) tt])%list,
           Exited 1)
      end
  | (tr, Returned (inr _) rest) =>
      let '(tr', s) :=
        exec1 rest (Driver.submissionLoop vars (Driver.submitNextBatch r)) in
      ((tr ++ tr')%list, s)
  | (tr, Pending) => (tr, Pending)
  | (tr, Exited code) => (tr, Exited code)
  end.
Proof.
  unfold Driver.loop. rewrite exec1_bind_bind, exec1_bind.
  destruct (exec1 answers (Driver.clearPending vars)) as [tr [|[err|[]] rest|code]];
    try reflexivity; cbv beta iota.
  - destruct rest as [|a1 rest]; repeat exec_step.
    { rewrite app_nil_r. reflexivity. }
    destruct (a1 _ (LogError _ _)).
    destruct rest as [|a2 rest]; repeat exec_step; [reflexivity|].
    destruct (a2 _ (ProcessExit _)). reflexivity.
  - rewrite exec1_ret_bind. reflexivity.
Qed.

Lemma roundsFrom_pendingReads nc p i tr o :
  roundsFrom nc p i tr o -> List.filter isPendingRead tr = [].
Proof.
  induction 1; try reflexivity. cbn. exact IHroundsFrom.
Qed.

Lemma reconciled_pendingReads nc tr o :
  reconciled nc tr o -> (length (List.filter isPendingRead tr) <= 1)%nat.
Proof.
  destruct 1; cbn; try lia.
  erewrite roundsFrom_pendingReads by eassumption. cbn. lia.
Qed.

Lemma reconcile_is_not_submit o : isReconcile o = true -> isSubmit o = false.
Proof. destruct o as [X e x]. destruct e; cbn; congruence. Qed.

Lemma clearPending_no_submit vars :
  always (fun o => isSubmit o = false) (Driver.clearPending vars).
Proof.
  apply clearPending_always; [apply reconcile_is_not_submit|reflexivity].
Qed.

Lemma submissionLoop_no_reconcile vars r :
  always (fun o => isReconcile o = false)
    (Driver.submissionLoop vars (Driver.submitNextBatch r)).
Proof. apply submissionLoop_always; reflexivity. Qed.

(** The interactions of a loop: those of the reconciliation, then those of
    the rounds of submission. *)
Lemma loop_phases vars clear r answers :
  exists pre post,
    fst (exec1 answers (Driver.loop vars clear (Driver.submitNextBatch r)))
    = (pre ++ post)%list /\
    Forall (fun o => isSubmit o = false) pre /\
    Forall (fun o => isReconcile o = false) post /\
    (length (List.filter isPendingRead pre) <= 1)%nat /\
    (clear = false -> pre = []).
Proof.
  destruct clear.
  - rewrite loop_exec.
    pose proof (clearPending_no_submit vars answers) as Hs.
    pose proof (reconciled_pendingReads _ _ _ (clearPending_reconciled vars answers)) as Hc.
    destruct (exec1 answers (Driver.clearPending vars)) as [tr [|[err|[]] rest|code]];
      cbn [fst snd] in *.
    + exists tr, []. rewrite app_nil_r. repeat split; auto. discriminate.
    + destruct rest as [|a1 [|a2 rest]]; cbn [fst].
      * exists tr, []. rewrite app_nil_r. repeat split; auto. discriminate.
      * eexists tr, _. split; [reflexivity|].
        repeat split; auto; try discriminate; repeat constructor.
      * eexists tr, _. split; [reflexivity|].
        repeat split; auto; try discriminate; repeat constructor.
    + pose proof (submissionLoop_no_reconcile vars r rest) as Hl.
      destruct (exec1 rest _) as [tr' s]. cbn [fst] in *.
      exists tr, tr'. repeat split; auto. discriminate.
    + exists tr, []. rewrite app_nil_r. repeat split; auto. discriminate.
  - unfold Driver.loop. rewrite exec1_ret_bind.
    exists [], (fst (exec1 answers (Driver.submissionLoop vars (Driver.submitNextBatch r)))).
    repeat split; auto. apply submissionLoop_no_reconcile.
Qed.

(** ** Reconciliation and the loops *)

Lemma history_count f (h : list (role * obs)) :
  length (List.filter f (map snd h)) =
  (length (List.filter f (ofRole TxBatch h)) +
   length (List.filter f (ofRole StateBatch h)))%nat.
Proof.
  induction h as [|[[|] o] h IH]; [reflexivity| |];
    unfold ofRole in *; cbn; destruct (f o); cbn; lia.
Qed.

Lemma no_reconcile_no_pendingRead tr :
  Forall (fun o => isReconcile o = false) tr -> List.filter isPendingRead tr = [].
Proof.
  induction 1 as [|[X e x] tr H _ IH]; [reflexivity|].
  cbn. destruct e; try discriminate; exact IH.
Qed.

(** The history of role [r] in a process that got to fire its loops. *)
Lemma process_projection env startup schedule tr p r :
  process env startup schedule = (tr, Launched p) ->
  exists answers,
    ofRole r (history p) =
    if String.eqb (loadedVars env !!! runFlag r) "true"
    then fst (exec1 answers
                (Driver.loop (loadedVars env) (clearFlag env) (Driver.submitNextBatch r)))
    else [].
Proof.
  intros H. apply process_launched in H as [_ ->].
  destruct (startPool_launch (loadedVars env) (clearFlag env)) as (He & Hh & Ht).
  destruct (pool_projection schedule r _ He) as [answers E].
  exists answers. rewrite E, Hh, Ht.
  destruct (String.eqb _ _); reflexivity.
Qed.

(** C1, as the code has it.  The reconciliation belongs to [loop], and
    [loop] is called once per enabled role: in any run, the interactions of
    each role split into those of its own reconciliation, which has no
    [submitNextBatch], followed by those of its submission rounds, which
    have nothing of a reconciliation; the counts are read at most once per
    role, hence at most twice in a process, and never for a role that has
    no loop. *)
Theorem reconciliation_once_per_loop env startup schedule tr p :
  process env startup schedule = (tr, Launched p) ->
  (forall r, exists pre post,
      ofRole r (history p) = (pre ++ post)%list /\
      Forall (fun o => isSubmit o = false) pre /\
      Forall (fun o => isReconcile o = false) post /\
      (length (List.filter isPendingRead (ofRole r (history p))) <= 1)%nat) /\
  (length (List.filter isPendingRead (map snd (history p))) <= 2)%nat /\
  (forall r, taskOf r p = None -> ofRole r (history p) = []).
Proof.
  intros H.
  assert (forall r, exists pre post,
      ofRole r (history p) = (pre ++ post)%list /\
      Forall (fun o => isSubmit o = false) pre /\
      Forall (fun o => isReconcile o = false) post /\
      (length (List.filter isPendingRead (ofRole r (history p))) <= 1)%nat) as Hr.
  { intros r. destruct (process_projection _ _ _ _ _ r H) as [answers E].
    rewrite E. destruct (String.eqb _ _).
    - destruct (loop_phases (loadedVars env) (clearFlag env) r answers)
        as (pre & post & -> & Hs & Hn & Hc & _).
      exists pre, post. repeat split; auto.
      rewrite List.filter_app, length_app, (no_reconcile_no_pendingRead post Hn).
      cbn. lia.
    - exists [], []. repeat split; auto. }
  split; [exact Hr|]. split.
  - rewrite history_count.
    destruct (Hr TxBatch) as (? & ? & _ & _ & _ & H1).
    destruct (Hr StateBatch) as (? & ? & _ & _ & _ & H2). lia.
  - intros r Hn. apply process_launched in H as [_ Hp].
    destruct (startPool_launch (loadedVars env) (clearFlag env)) as (He & Hh & Ht).
    destruct (pool_projection schedule r _ He) as [answers E].
    rewrite Hp, E, Hh. 
    destruct (taskOf r (startPool _)) as [t|] eqn:Hr0; [|reflexivity].
    rewrite Hp in Hn.
    pose proof (runPool_taskOf_Some schedule r _ (ex_intro _ t Hr0)) as [t' Ht'].
    congruence.
Qed.

Lemma reconciliation_once_per_loop_witness :
  exists tr p,
    process envBoth startupOk txFirst = (tr, Launched p) /\
    (length (List.filter isPendingRead (map snd (history p))) <= 2)%nat.
Proof.
  assert (exists tr p, process envBoth startupOk txFirst = (tr, Launched p))
    as (tr & p & H) by (eexists _, _; vm_compute; reflexivity).
  exists tr, p. split; [exact H|].
  apply (reconciliation_once_per_loop _ _ _ _ _ H).
Defined.

(** C1 as the specification words it does not hold: with both roles enabled
    the counts are read twice, once by each loop, and the transaction-batch
    loop has called [submitNextBatch] before the state-batch loop has read
    its counts. *)
Lemma reconciliation_runs_in_each_loop :
  envBoth !! "CLEAR_PENDING_TXS" = Some "true" /\
  exists tr p,
    process envBoth startupOk txFirst = (tr, Launched p) /\
    map (fun c => (fst c, isReconcile (snd c), isSubmit (snd c))) (history p) =
      [ (TxBatch, true, false); (TxBatch, true, false); (TxBatch, false, true);
        (StateBatch, true, false); (StateBatch, true, false) ] /\
    length (List.filter isPendingRead (map snd (history p))) = 2%nat.
Proof.
  split; [vm_compute; reflexivity|].
  eexists _, _. vm_compute. repeat split; reflexivity.
Qed.

(** ** Startup failures *)

Lemma run_missing env val startup :
  firstMissing env = Some val ->
  exec1 startup (Driver.run env) =
  match startup with
  | [] => ([], Pending)
  | [_] => ([Obs (LogInfo "Starting batch submitter...") tt], Pending)
  | [_; _] =>
      ([Obs (LogInfo "Starting batch submitter...") tt;
        Obs (LogError ("Missing enviornment variable: " ++ val) None) tt], Pending)
  | _ :: _ :: _ :: _ =>
      ([Obs (LogInfo "Starting batch submitter...") tt;
        Obs (LogError ("Missing enviornment variable: " ++ val) None) tt;
        Obs (ProcessExit 1) tt], Exited 1)
  end.
Proof.
  intros H. unfold Driver.run.
  destruct startup as [|a0 startup]; repeat exec_step; [reflexivity|].
  destruct (a0 _ (LogInfo _)).
  rewrite exec1_bind, checkRequired_exec. fold (firstMissing env). rewrite H.
  destruct startup as [|a1 [|a2 startup]]; reflexivity.
Qed.

Lemma run_no_signer env startup :
  firstMissing env = None ->
  truthy (env !! "SEQUENCER_PRIVATE_KEY") = false ->
  truthy (env !! "MNEMONIC") = false ->
  exec1 startup (Driver.run env) =
  match startup with
  | [] => ([], Pending)
  | [_] => ([Obs (LogInfo "Starting batch submitter...") tt], Pending)
  | [_; _] =>
      ([Obs (LogInfo "Starting batch submitter...") tt;
        Obs (NewJsonRpcProvider (env !!! "L1_NODE_WEB3_URL")) tt], Pending)
  | _ :: _ :: _ :: rest =>
      ([Obs (LogInfo "Starting batch submitter...") tt;
        Obs (NewJsonRpcProvider (env !!! "L1_NODE_WEB3_URL")) tt;
        Obs (NewOptimismProvider (env !!! "L2_NODE_WEB3_URL")) tt],
       Returned
         (inl {| message := "Must pass one of SEQUENCER_PRIVATE_KEY or MNEMONIC" |})
         rest)
  end.
Proof.
  intros H Hk Hm. unfold Driver.run.
  destruct startup as [|a0 startup]; repeat exec_step; [reflexivity|].
  destruct (a0 _ (LogInfo _)).
  rewrite exec1_bind, checkRequired_exec. fold (firstMissing env). rewrite H.
  fold (loadedVars env).
  rewrite !loadedVars_lookup by (cbn; auto 20).
  destruct startup as [|a1 startup]; repeat exec_step; [reflexivity|].
  destruct (a1 _ (NewJsonRpcProvider _)).
  destruct startup as [|a2 startup]; repeat exec_step; [reflexivity|].
  destruct (a2 _ (NewOptimismProvider _)).
  unfold Driver.newSequencerSigner, Driver.SEQUENCER_PRIVATE_KEY, Driver.MNEMONIC.
  rewrite Hk, Hm. repeat exec_step. reflexivity.
Qed.

(** ** How a process comes to exit *)

(** A pool exits when one of its loops does. *)
Lemma pool_exit schedule code : forall p,
  exited p = None ->
  exited (runPool schedule p) = Some code ->
  exists r t answers tr,
    taskOf r p = Some t /\
    exec1 answers t = (tr, Exited code) /\
    ofRole r (history (runPool schedule p)) = (ofRole r (history p) ++ tr)%list.
Proof.
  induction schedule as [|[r' a] s IH]; intros p Hp Hx.
  - cbn in Hx. congruence.
  - rewrite runPool_cons in *. unfold poolStep in *. rewrite Hp in *.
    destruct (taskOf r' p) as [t|] eqn:Ht; [|apply IH; assumption].
    destruct (observe t) as [v|t'|X e k] eqn:Ho; [destruct v| |].
    + destruct (IH (setTask r' t' p)) as (r & t0 & answers & tr & H1 & H2 & H3);
        [rewrite exited_setTask; exact Hp|exact Hx|].
      rewrite history_setTask in H3. rewrite taskOf_setTask in H1.
      destruct (role_eqb r' r) eqn:Hr.
      * apply role_eqb_eq in Hr. subst r'. injection H1 as <-.
        exists r, t, (a :: answers), tr. repeat split; auto.
        cbn. rewrite Ho. exact H2.
      * exists r, t0, answers, tr. auto.
    + destruct (exitCode e) as [code'|] eqn:Hc.
      * rewrite (runPool_exited s _ code') in * by reflexivity.
        cbn [halt record history exited] in *. injection Hx as ->.
        exists r', t, [a], [Obs e (a X e)]. repeat split; auto.
        -- cbn. rewrite Ho, Hc. reflexivity.
        -- rewrite ofRole_app, ofRole_one, role_eqb_refl. reflexivity.
      * destruct (IH (setTask r' (k (a X e)) (record r' (Obs e (a X e)) p)))
          as (r & t0 & answers & tr & H1 & H2 & H3);
          [rewrite exited_setTask; exact Hp|exact Hx|].
        rewrite history_setTask in H3. rewrite taskOf_setTask in H1.
        cbn [record history] in H3. rewrite ofRole_app, ofRole_one in H3.
        destruct (role_eqb r' r) eqn:Hr.
        -- apply role_eqb_eq in Hr. subst r'. injection H1 as <-.
           exists r, t, (a :: answers), (Obs e (a X e) :: tr). repeat split; auto.
           ++ cbn. rewrite Ho, Hc, H2. reflexivity.
           ++ rewrite H3, <- app_assoc. reflexivity.
        -- exists r, t0, answers, tr.
           split; [destruct r; exact H1|]. split; [exact H2|].
           rewrite H3, app_nil_r. reflexivity.
Qed.

Lemma roundsFrom_failed nc p i tr o :
  roundsFrom nc p i tr o -> forall err, o = Some (inl err) ->
  Exists (fun x => failedReconcile x = true) tr.
Proof.
  induction 1; intros e E; try discriminate;
    try (repeat first [apply Exists_cons_hd; reflexivity | apply Exists_cons_tl]).
  eapply IHroundsFrom, E.
Qed.

Lemma reconciled_failed nc tr err :
  reconciled nc tr (Some (inl err)) ->
  Exists (fun x => failedReconcile x = true) tr.
Proof.
  inversion 1; subst;
    try (repeat first [apply Exists_cons_hd; reflexivity | apply Exists_cons_tl]).
  eapply roundsFrom_failed; [eassumption|reflexivity].
Qed.

(** A loop exits with status 1, after a rejection in its reconciliation and
    before any [submitNextBatch]. *)
Lemma loop_exited vars clear r answers tr code :
  exec1 answers (Driver.loop vars clear (Driver.submitNextBatch r)) = (tr, Exited code) ->
  code = 1%Z /\
  Exists (fun x => failedReconcile x = true) tr /\
  Forall (fun o => isSubmit o = false) tr.
Proof.
  destruct clear.
  - rewrite loop_exec.
    pose proof (clearPending_reconciled vars answers) as Hr.
    pose proof (clearPending_no_submit vars answers) as Hs.
    pose proof (clearPending_neverExits vars answers) as He.
    destruct (exec1 answers (Driver.clearPending vars)) as [rec [|[err|[]] rest|c]];
      cbn [fst snd settled] in *; try discriminate.
    + destruct rest as [|a1 [|a2 rest]]; try discriminate.
      intros [= <- <-]. split; [reflexivity|]. split.
      * apply Exists_app. left. eapply reconciled_failed, Hr.
      * apply Forall_app. split; [exact Hs|]. repeat constructor.
    + pose proof (submissionLoop_neverExits vars r rest) as Hn.
      destruct (exec1 rest _) as [tr' s]. intros [= <- ->].
      exfalso. eapply Hn. reflexivity.
    + exfalso. eapply He. reflexivity.
  - unfold Driver.loop. rewrite exec1_ret_bind. intros H.
    exfalso. eapply (submissionLoop_neverExits vars r answers). rewrite H. reflexivity.
Qed.

(** A process that got to fire its loops exits only with status 1, by a
    loop whose reconciliation met a rejection and which has called no
    [submitNextBatch]. *)
Lemma process_exit env startup schedule tr p code :
  process env startup schedule = (tr, Launched p) ->
  exited p = Some code ->
  code = 1%Z /\
  exists r,
    Exists (fun x => failedReconcile x = true) (ofRole r (history p)) /\
    Forall (fun o => isSubmit o = false) (ofRole r (history p)).
Proof.
  intros H Hx. apply process_launched in H as [_ ->].
  destruct (startPool_launch (loadedVars env) (clearFlag env)) as (He & Hh & Ht).
  destruct (pool_exit _ _ _ He Hx) as (r & t & answers & tr' & H1 & H2 & H3).
  rewrite Ht in H1. destruct (String.eqb _ _); [|discriminate].
  injection H1 as <-. apply loop_exited in H2 as (-> & Hf & Hs).
  split; [reflexivity|]. exists r. rewrite H3, Hh. cbn. auto.
Qed.

Lemma process_missing env val startup schedule :
  firstMissing env = Some val ->
  process env startup schedule =
  match startup with
  | [] => ([], StartingUp)
  | [_] => ([Obs (LogInfo "Starting batch submitter...") tt], StartingUp)
  | [_; _] =>
      ([Obs (LogInfo "Starting batch submitter...") tt;
        Obs (LogError ("Missing enviornment variable: " ++ val) None) tt], StartingUp)
  | _ :: _ :: _ :: _ =>
      ([Obs (LogInfo "Starting batch submitter...") tt;
        Obs (LogError ("Missing enviornment variable: " ++ val) None) tt;
        Obs (ProcessExit 1) tt], ExitedAtStartup 1)
  end.
Proof.
  intros H. unfold process. rewrite (run_missing env val startup H).
  destruct startup as [|a0 [|a1 [|a2 startup]]]; reflexivity.
Qed.

Lemma process_no_signer env startup schedule :
  firstMissing env = None ->
  truthy (env !! "SEQUENCER_PRIVATE_KEY") = false ->
  truthy (env !! "MNEMONIC") = false ->
  process env startup schedule =
  match startup with
  | [] => ([], StartingUp)
  | [_] => ([Obs (LogInfo "Starting batch submitter...") tt], StartingUp)
  | [_; _] =>
      ([Obs (LogInfo "Starting batch submitter...") tt;
        Obs (NewJsonRpcProvider (env !!! "L1_NODE_WEB3_URL")) tt], StartingUp)
  | _ :: _ :: _ :: rest =>
      ([Obs (LogInfo "Starting batch submitter...") tt;
        Obs (NewJsonRpcProvider (env !!! "L1_NODE_WEB3_URL")) tt;
        Obs (NewOptimismProvider (env !!! "L2_NODE_WEB3_URL")) tt],
       Rejected {| message := "Must pass one of SEQUENCER_PRIVATE_KEY or MNEMONIC" |})
  end.
Proof.
  intros H Hk Hm. unfold process. rewrite (run_no_signer env startup H Hk Hm).
  destruct startup as [|a0 [|a1 [|a2 startup]]]; reflexivity.
Qed.

(** C8.  A required variable that is unset or empty makes [run] log it and
    call [exit(1)]; with every required variable set but neither private key
    nor mnemonic, [run] throws [Must pass one of SEQUENCER_PRIVATE_KEY or
    MNEMONIC], and the process ends with the status of an uncaught
    rejection.  Either way the process has a status as soon as the three
    startup calls are through, the status is not 0, no Submitter has been
    constructed and no loop is fired.  Once the loops are fired, a status
    is 1 and is the doing of a loop that met a rejection in its
    reconciliation and has called no [submitNextBatch]: what
    [submitNextBatch] gives never ends the process. *)
Theorem fatal_startup_conditions uncaught env startup schedule tr out :
  uncaught <> 0%Z ->
  process env startup schedule = (tr, out) ->
  (forall val, firstMissing env = Some val ->
     Forall (fun o => constructsSubmitter o = false) tr /\
     (forall p, out <> Launched p) /\
     (forall code, exitStatus uncaught out = Some code -> code = 1%Z) /\
     ((3 <= length startup)%nat ->
      tr = [Obs (LogInfo "Starting batch submitter...") tt;
            Obs (LogError ("Missing enviornment variable: " ++ val) None) tt;
            Obs (ProcessExit 1) tt] /\
      out = ExitedAtStartup 1 /\
      exitStatus uncaught out = Some 1%Z)) /\
  (firstMissing env = None ->
   truthy (env !! "SEQUENCER_PRIVATE_KEY") = false ->
   truthy (env !! "MNEMONIC") = false ->
     Forall (fun o => constructsSubmitter o = false) tr /\
     Forall (fun o => isExit o = false) tr /\
     (forall p, out <> Launched p) /\
     (forall code, exitStatus uncaught out = Some code -> code <> 0%Z) /\
     ((3 <= length startup)%nat ->
      out = Rejected {| message := "Must pass one of SEQUENCER_PRIVATE_KEY or MNEMONIC" |} /\
      exitStatus uncaught out = Some uncaught)) /\
  (forall p code, out = Launched p -> exitStatus uncaught out = Some code ->
     code = 1%Z /\
     exists r,
       Exists (fun x => failedReconcile x = true) (ofRole r (history p)) /\
       Forall (fun o => isSubmit o = false) (ofRole r (history p))).
Proof.
  intros Hu H. split; [|split].
  - intros val Hm. rewrite (process_missing env val startup schedule Hm) in H.
    destruct startup as [|a0 [|a1 [|a2 startup]]]; injection H as <- <-;
      (split; [repeat constructor|]); (split; [discriminate|]);
      (split; [cbn; congruence|]); cbn [length]; intros Hl; try lia.
    repeat split.
  - intros Hm Hk Hn. rewrite (process_no_signer env startup schedule Hm Hk Hn) in H.
    destruct startup as [|a0 [|a1 [|a2 startup]]]; injection H as <- <-;
      (split; [repeat constructor|]); (split; [repeat constructor|]);
      (split; [discriminate|]); (split; [cbn; congruence|]);
      cbn [length]; intros Hl; try lia.
    split; reflexivity.
  - intros p code -> Hx. cbn [exitStatus] in Hx. eapply process_exit; eassumption.
Qed.

Lemma fatal_startup_conditions_witness :
  exists tr out,
    process envNoSigner startupOk txFirst = (tr, out) /\
    exitStatus 1 out = Some 1%Z /\
    Forall (fun o => constructsSubmitter o = false) tr /\
    forall p, out <> Launched p.
Proof.
  destruct (process envNoSigner startupOk txFirst) as [tr out] eqn:E.
  assert (1 <> 0)%Z as Hu by lia.
  destruct (fatal_startup_conditions 1 _ _ _ _ _ Hu E) as (_ & H & _).
  destruct H as (Hc & _ & Hl & _ & Hx);
    [vm_compute; reflexivity|vm_compute; reflexivity|vm_compute; reflexivity|].
  destruct Hx as [_ Hx]; [cbn; lia|].
  exists tr, out. split; [reflexivity|]. split; [exact Hx|]. split; [exact Hc|exact Hl].
Defined.

(** ** The flags *)

Lemma required_missing env k :
  In k (map snd Driver.requiredEnvVarsEntries) ->
  truthy (env !! k) = false ->
  exists val, firstMissing env = Some val.
Proof.
  intros Hin Hk. destruct (firstMissing env) as [val|] eqn:E; [eauto|].
  unfold firstMissing in E.
  eapply List.find_none in E; [|exact Hin]. cbn beta in E. rewrite Hk in E. discriminate.
Qed.

Lemma reconciled_starts nc tr o x rest :
  reconciled nc tr o -> tr = x :: rest -> isPendingRead x = true.
Proof.
  destruct 1; intros E; try discriminate; injection E as <- _; reflexivity.
Qed.

Lemma loop_no_reconcile vars r :
  always (fun o => isReconcile o = false)
    (Driver.loop vars false (Driver.submitNextBatch r)).
Proof.
  unfold Driver.loop. apply always_bind; [apply always_ret|].
  intros _. apply submissionLoop_no_reconcile.
Qed.

Lemma loop_starts vars r answers x rest :
  fst (exec1 answers (Driver.loop vars true (Driver.submitNextBatch r))) = x :: rest ->
  isPendingRead x = true.
Proof.
  rewrite loop_exec.
  pose proof (clearPending_reconciled vars answers) as Hr.
  pose proof (clearPending_neverExits vars answers) as He.
  destruct (exec1 answers (Driver.clearPending vars)) as [tr [|[err|[]] rs|code]];
    cbn [fst snd settled] in *.
  - eapply reconciled_starts, Hr.
  - inversion Hr; subst; destruct rs as [|? [|? ?]]; cbn; intros [= <- _]; reflexivity.
  - inversion Hr; subst; destruct (exec1 rs _); cbn; intros [= <- _]; reflexivity.
  - exfalso. eapply He. reflexivity.
Qed.

Lemma clearFlag_true env :
  clearFlag env = true <-> env !! "CLEAR_PENDING_TXS" = Some "true".
Proof. unfold clearFlag. apply (flag_true env "CLEAR_PENDING_TXS"). cbn. auto 20. Qed.

(** C9.  The three flags are compared with the string ['true'] and nothing
    else.  Unset or empty, a flag is a missing required variable: the
    process logs it and exits with status 1.  Otherwise a role has a loop
    exactly when its variable is ['true'], and when [CLEAR_PENDING_TXS] is
    anything else no loop ever asks the signer or the Confirmation Waiter
    for anything; when it is ['true'], the first thing every loop does is to
    read the pending count. *)
Theorem flags_are_strictly_true env startup schedule tr out :
  process env startup schedule = (tr, out) ->
  (forall k,
     In k ["RUN_TX_BATCH_SUBMITTER"; "RUN_STATE_BATCH_SUBMITTER"; "CLEAR_PENDING_TXS"] ->
     truthy (env !! k) = false ->
     (out = StartingUp \/ out = ExitedAtStartup 1) /\
     ((3 <= length startup)%nat -> out = ExitedAtStartup 1)) /\
  (forall p, out = Launched p ->
     (forall r, is_Some (taskOf r p) <-> env !! runFlag r = Some "true") /\
     (env !! "CLEAR_PENDING_TXS" <> Some "true" ->
      Forall (fun c => isReconcile (snd c) = false) (history p)) /\
     (env !! "CLEAR_PENDING_TXS" = Some "true" ->
      forall r x rest, ofRole r (history p) = x :: rest -> isPendingRead x = true)).
Proof.
  intros H. split.
  - intros k Hk Hf.
    destruct (required_missing env k) as [val Hm]; [|exact Hf|].
    { cbn. destruct Hk as [<-|[<-|[<-|[]]]]; auto 20. }
    rewrite (process_missing env val startup schedule Hm) in H.
    destruct startup as [|a0 [|a1 [|a2 startup]]]; injection H as <- <-;
      (split; [auto|]); cbn; intros; try lia; reflexivity.
  - intros p ->.
    pose proof (process_launched env _ _ _ _ H) as [_ Hp].
    destruct (startPool_launch (loadedVars env) (clearFlag env)) as (He & Hh & Ht).
    split; [|split].
    + intros r. rewrite <- (flag_true env (runFlag r) (runFlag_required r)).
      specialize (Ht r). rewrite Hp.
      destruct (String.eqb _ _); split; intros Hs; try reflexivity; try discriminate.
      * apply runPool_taskOf_Some. rewrite Ht. eexists; reflexivity.
      * rewrite runPool_taskOf_None in Hs by exact Ht. destruct Hs; discriminate.
    + intros Hc. rewrite Hp.
      apply (pool_always (fun _ o => isReconcile o = false)); [exact He|exact Hh|].
      intros r t. rewrite Ht. destruct (String.eqb _ _); [|discriminate].
      intros [= <-].
      assert (clearFlag env = false) as ->.
      { destruct (clearFlag env) eqn:E; [|reflexivity].
        apply clearFlag_true in E. contradiction. }
      apply loop_no_reconcile.
    + intros Hc r x rest.
      destruct (process_projection _ _ _ _ _ r H) as [answers E]. rewrite E.
      destruct (String.eqb _ _); [|discriminate].
      assert (clearFlag env = true) as -> by (apply clearFlag_true, Hc).
      apply loop_starts.
Qed.

Lemma flags_are_strictly_true_witness :
  exists tr p,
    process (envWith "true" "1" "yes") startupOk txFirst = (tr, Launched p) /\
    ~ is_Some (taskOf StateBatch p) /\
    Forall (fun c => isReconcile (snd c) = false) (history p).
Proof.
  assert (exists tr p,
    process (envWith "true" "1" "yes") startupOk txFirst = (tr, Launched p))
    as (tr & p & H) by (eexists _, _; vm_compute; reflexivity).
  exists tr, p. split; [exact H|].
  destruct (flags_are_strictly_true _ _ _ _ _ H) as [_ Hp].
  destruct (Hp p eq_refl) as (H1 & H2 & _). split.
  - intros Hs. apply H1 in Hs. vm_compute in Hs. discriminate.
  - apply H2. vm_compute. discriminate.
Defined.

(** ** Numbers

    [parseInt] and [*] at values where doubles show. *)

Example parseInt10_plain : parseInt10 "15" = Num 15.
Proof. reflexivity. Qed.

Example parseInt10_stops_at_first_non_digit :
  parseInt10 " 15px" = Num 15 /\ parseInt10 "1e3" = Num 1 /\ parseInt10 "0x10" = Num 0.
Proof. repeat split. Qed.

Example parseInt10_no_digit : parseInt10 "" = NaN /\ parseInt10 "true" = NaN.
Proof. split; reflexivity. Qed.

Example parseInt10_negative_zero : parseInt10 "-0" = S754_zero true.
Proof. reflexivity. Qed.

(** U+00A0, two bytes in UTF-8, is white space. *)
Example parseInt10_skips_no_break_space :
  parseInt10 (String (ascii_of_nat 194) (String (ascii_of_nat 160) "15")) = Num 15.
Proof. vm_compute. reflexivity. Qed.

(** Above 2^53 the integer read is rounded to the nearest double. *)
Example parseInt10_rounds :
  parseInt10 "9007199254740993" = Num 9007199254740992.
Proof. vm_compute. reflexivity. Qed.

Example parseInt10_overflows :
  parseInt10 ("1" ++ String.concat "" (repeat "0" 309)) = S754_infinity false.
Proof. vm_compute. reflexivity. Qed.

(** The product is rounded as well: 4503599627370497 * 1000 is not
    4503599627370497000 but the double next to it. *)
Example number_mul_rounds :
  number_mul (Num 4503599627370497) (Num 1000) = Num 4503599627370497024 /\
  Num 4503599627370497024 = S754_finite false 8796093022208002 9.
Proof. split; vm_compute; reflexivity. Qed.

Example number_mul_sixty_seconds : number_mul (Num 60) (Num 1000) = Num 60000.
Proof. reflexivity. Qed.

(** ** Units of the intervals *)

(** C10.  What a loop hands to [setTimeout] is [parseInt(POLL_INTERVAL)] as
    it stands, whereas the Submitters are given
    [parseInt(RESUBMISSION_TIMEOUT) * 1000] and
    [parseInt(MAX_BATCH_SUBMISSION_TIME) * 1000]: Numbers all three, with
    the rounding of [parseInt] and of the product where the values are
    large. *)
Theorem poll_interval_is_not_scaled env startup schedule tr out :
  process env startup schedule = (tr, out) ->
  (forall o args, In o tr -> txArgsOf o = Some args ->
     tx_resubmissionTimeout args =
       number_mul (parseInt10 (env !!! "RESUBMISSION_TIMEOUT")) (Num 1000) /\
     tx_maxBatchSubmissionTime args =
       number_mul (parseInt10 (env !!! "MAX_BATCH_SUBMISSION_TIME")) (Num 1000)) /\
  (forall o args, In o tr -> stateArgsOf o = Some args ->
     st_resubmissionTimeout args =
       number_mul (parseInt10 (env !!! "RESUBMISSION_TIMEOUT")) (Num 1000) /\
     st_maxBatchSubmissionTime args =
       number_mul (parseInt10 (env !!! "MAX_BATCH_SUBMISSION_TIME")) (Num 1000)) /\
  (forall p r o ms, out = Launched p -> In (r, o) (history p) ->
     sleepOf o = Some ms -> ms = parseInt10 (env !!! "POLL_INTERVAL")).
Proof.
  intros H.
  pose proof (process_startup_always env startup schedule) as Hs.
  rewrite H in Hs. cbn [fst] in Hs.
  split; [|split].
  - intros [X e x] args Hin Ha.
    eapply List.Forall_forall in Hs; [|exact Hin].
    destruct e; try discriminate.
    cbn [startupObs] in Hs. cbn [txArgsOf] in Ha. injection Ha as <-. subst args0.
    unfold Driver.txBatchSubmitterArgs.
    cbn [tx_resubmissionTimeout tx_maxBatchSubmissionTime].
    rewrite !loadedVars_lookup by (cbn; auto 20). split; reflexivity.
  - intros [X e x] args Hin Ha.
    eapply List.Forall_forall in Hs; [|exact Hin].
    destruct e; try discriminate.
    cbn [startupObs] in Hs. cbn [stateArgsOf] in Ha. injection Ha as <-. subst args0.
    unfold Driver.stateBatchSubmitterArgs.
    cbn [st_resubmissionTimeout st_maxBatchSubmissionTime].
    rewrite !loadedVars_lookup by (cbn; auto 20). split; reflexivity.
  - intros p r [X e x] ms -> Hin Hm.
    pose proof (process_history_always env _ _ _ _ H) as Hh.
    eapply List.Forall_forall in Hh; [|exact Hin]. cbn [fst snd] in Hh.
    destruct e; try discriminate.
    cbn [loopObs] in Hh. cbn [sleepOf] in Hm. injection Hm as <-. subst ms0.
    rewrite loadedVars_lookup by (cbn; auto 20). reflexivity.
Qed.

Lemma poll_interval_is_not_scaled_witness :
  exists tr p,
    process (envWith "true" "false" "false") startupOk
      [(TxBatch, idle); (TxBatch, idle)] = (tr, Launched p) /\
    omap txArgsOf tr <> [] /\
    (forall o args, In o tr -> txArgsOf o = Some args ->
       tx_resubmissionTimeout args = Num 300000) /\
    omap (fun c => sleepOf (snd c)) (history p) <> [] /\
    (forall r o ms, In (r, o) (history p) -> sleepOf o = Some ms -> ms = Num 15).
Proof.
  assert (exists tr p,
    process (envWith "true" "false" "false") startupOk
      [(TxBatch, idle); (TxBatch, idle)] = (tr, Launched p) /\
    omap txArgsOf tr <> [] /\
    omap (fun c => sleepOf (snd c)) (history p) <> [])
    as (tr & p & H & H1 & H2)
    by (eexists _, _; vm_compute; repeat split; discriminate).
  exists tr, p. split; [exact H|]. split; [exact H1|].
  destruct (poll_interval_is_not_scaled _ _ _ _ _ H) as (Ht & _ & Hp).
  split; [|split; [exact H2|]].
  - intros o args Hin Ha. destruct (Ht o args Hin Ha) as [-> _].
    vm_compute. reflexivity.
  - intros r o ms Hin Hs. rewrite (Hp p r o ms eq_refl Hin Hs).
    vm_compute. reflexivity.
Defined.

(** ** More answers *)

Lemma exec1_app {R} (as1 : list answerer) : forall as2 (t : itree ioE R),
  exec1 (as1 ++ as2) t =
  match exec1 as1 t with
  | (tr1, Pending) =>
      let '(tr2, s) := exec1 as2 (after as1 t) in ((tr1 ++ tr2)%list, s)
  | (tr1, Returned r rest) => (tr1, Returned r (rest ++ as2)%list)
  | (tr1, Exited code) => (tr1, Exited code)
  end.
Proof.
  induction as1 as [|a as1 IH]; intros as2 t.
  - cbn [app after]. destruct as2 as [|a2 as2]; cbn; destruct (observe t); try reflexivity.
    + destruct (exec1 as2 t0); reflexivity.
    + destruct (exitCode e); [reflexivity|]. destruct (exec1 as2 _); reflexivity.
  - cbn. destruct (observe t) as [r|t'|X e k]; [reflexivity|apply IH|].
    destruct (exitCode e); [reflexivity|].
    rewrite IH. destruct (exec1 as1 (k (a X e))) as [tr1 [|r rest|code]]; try reflexivity.
    destruct (exec1 as2 _); reflexivity.
Qed.

(** As [pool_projection], with what is left of the loop. *)
Lemma pool_residual schedule r : forall p t,
  exited p = None -> taskOf r p = Some t ->
  exists answers,
    ofRole r (history (runPool schedule p)) =
      (ofRole r (history p) ++ fst (exec1 answers t))%list /\
    taskOf r (runPool schedule p) = Some (after answers t) /\
    (exited (runPool schedule p) = None -> snd (exec1 answers t) = Pending).
Proof.
  induction schedule as [|[r' a] s IH]; intros p t Hp Ht.
  - exists []. change (runPool [] p) with p. rewrite exec1_nil, app_nil_r.
    split; [reflexivity|]. split; [exact Ht|]. intros _.
    cbn. destruct (observe t) as [[]| |]; reflexivity.
  - rewrite runPool_cons. unfold poolStep. rewrite Hp.
    destruct (role_eqb r' r) eqn:Hr.
    + apply role_eqb_eq in Hr. subst r'. rewrite Ht.
      destruct (observe t) as [v|t'|X e k] eqn:Ho; [destruct v| |].
      * destruct (IH (setTask r t' p) t') as (answers & E1 & E2 & E3);
          [rewrite exited_setTask; exact Hp|rewrite taskOf_setTask, role_eqb_refl; reflexivity|].
        exists (a :: answers). rewrite history_setTask in E1.
        cbn [exec1 after]. rewrite Ho. auto.
      * destruct (exitCode e) as [code|] eqn:Hc.
        -- rewrite (runPool_exited s _ code) by reflexivity.
           exists [a]. cbn [halt record history taskOf exited exec1 after].
           rewrite Ho, Hc, ofRole_app, ofRole_one, role_eqb_refl.
           split; [reflexivity|]. split; [destruct r; exact Ht|discriminate].
        -- destruct (IH (setTask r (k (a X e)) (record r (Obs e (a X e)) p)) (k (a X e)))
             as (answers & E1 & E2 & E3);
             [rewrite exited_setTask; exact Hp
             |rewrite taskOf_setTask, role_eqb_refl; reflexivity|].
           exists (a :: answers). rewrite history_setTask in E1.
           cbn [record history] in E1. rewrite ofRole_app, ofRole_one, role_eqb_refl in E1.
           cbn [exec1 after]. rewrite Ho, Hc.
           destruct (exec1 answers (k (a X e))) as [tr' s'].
           cbn [fst snd] in *. rewrite E1, <- app_assoc. auto.
    + destruct (taskOf r' p) as [t'|] eqn:Ht'; [|apply IH; assumption].
      destruct (observe t') as [v|t''|X e k] eqn:Ho; [destruct v| |].
      * destruct (IH (setTask r' t'' p) t) as (answers & E1 & E2 & E3);
          [rewrite exited_setTask; exact Hp|rewrite taskOf_setTask, Hr; exact Ht|].
        exists answers. rewrite history_setTask in E1. auto.
      * destruct (exitCode e) as [code|] eqn:Hc.
        -- rewrite (runPool_exited s _ code) by reflexivity.
           exists []. cbn [halt record history taskOf exited].
           rewrite ofRole_app, ofRole_one, Hr, exec1_nil.
           split; [reflexivity|]. split; [destruct r; exact Ht|discriminate].
        -- destruct (IH (setTask r' (k (a X e)) (record r' (Obs e (a X e)) p)) t)
             as (answers & E1 & E2 & E3);
             [rewrite exited_setTask; exact Hp
             |rewrite taskOf_setTask, Hr; destruct r; exact Ht|].
           exists answers. rewrite history_setTask in E1.
           cbn [record history] in E1. rewrite ofRole_app, ofRole_one, Hr, app_nil_r in E1.
           auto.
Qed.

(** A loop that exits makes the pool exit. *)
Lemma pool_role_exit r answers : forall p t tr code,
  exited p = None -> taskOf r p = Some t ->
  exec1 answers t = (tr, Exited code) ->
  exited (runPool (map (pair r) answers) p) = Some code.
Proof.
  induction answers as [|a answers IH]; intros p t tr code Hp Ht.
  - cbn. destruct (observe t); discriminate.
  - cbn [map]. rewrite runPool_cons. unfold poolStep. rewrite Hp, Ht.
    cbn [exec1]. destruct (observe t) as [v|t'|X e k]; [destruct v| |].
    + apply IH; [rewrite exited_setTask; exact Hp|].
      rewrite taskOf_setTask, role_eqb_refl. reflexivity.
    + destruct (exitCode e) as [code'|].
      * intros [= _ <-]. rewrite (runPool_exited _ _ code') by reflexivity. reflexivity.
      * destruct (exec1 answers (k (a X e))) as [tr' s] eqn:E. intros [= _ ->].
        eapply IH; [rewrite exited_setTask; exact Hp| |exact E].
        rewrite taskOf_setTask, role_eqb_refl. reflexivity.
Qed.

(** ** A reconciliation that fails *)

Lemma failed_is_reconcile o : failedReconcile o = true -> isReconcile o = true.
Proof. unfold failedReconcile. intros H. apply andb_true_iff in H as [H _]. exact H. Qed.

Lemma failed_is_rejected o : failedReconcile o = true -> rejected o = true.
Proof. unfold failedReconcile. intros H. apply andb_true_iff in H as [_ H]. exact H. Qed.

Lemma failed_rejected tr :
  Exists (fun x => failedReconcile x = true) tr ->
  Exists (fun x => rejected x = true) tr.
Proof.
  intros H. apply List.Exists_exists in H as (o & Hin & Ho).
  apply List.Exists_exists. exists o. split; [exact Hin|apply failed_is_rejected, Ho].
Qed.

Lemma no_reconcile_no_failure tr :
  Forall (fun o => isReconcile o = false) tr ->
  ~ Exists (fun x => failedReconcile x = true) tr.
Proof.
  intros H Hx. apply List.Exists_exists in Hx as (o & Hin & Ho).
  eapply List.Forall_forall in H; [|exact Hin].
  apply failed_is_reconcile in Ho. congruence.
Qed.

(** Where the history of a loop shows a rejection met by its
    reconciliation, the reconciliation has ended on it. *)
Lemma loop_failed vars clear r answers :
  Exists (fun x => failedReconcile x = true)
    (fst (exec1 answers (Driver.loop vars clear (Driver.submitNextBatch r)))) ->
  clear = true /\
  exists rec err rest,
    exec1 answers (Driver.clearPending vars) = (rec, Returned (inl err) rest).
Proof.
  destruct clear.
  - intros H. split; [reflexivity|]. revert H. rewrite loop_exec.
    pose proof (clearPending_reconciled vars answers) as Hr.
    destruct (exec1 answers (Driver.clearPending vars)) as [rec [|[err|[]] rest|code]] eqn:E;
      cbn [fst snd settled] in *.
    + intros H. apply failed_rejected in H.
      apply (reconciled_rejected _ _ _ Hr) in H as [err H]. discriminate.
    + eauto.
    + pose proof (submissionLoop_no_reconcile vars r rest) as Hn.
      destruct (exec1 rest _) as [tr' s]. cbn [fst] in *. intros H.
      apply Exists_app in H as [H|H].
      * apply failed_rejected in H.
        apply (reconciled_rejected _ _ _ Hr) in H as [err H]. discriminate.
      * exfalso. eapply no_reconcile_no_failure; eassumption.
    + intros H. apply failed_rejected in H.
      apply (reconciled_rejected _ _ _ Hr) in H as [err H]. discriminate.
  - intros H. exfalso. eapply no_reconcile_no_failure; [|exact H].
    apply loop_no_reconcile.
Qed.

Lemma loop_failed_no_submit vars clear r answers :
  Exists (fun x => failedReconcile x = true)
    (fst (exec1 answers (Driver.loop vars clear (Driver.submitNextBatch r)))) ->
  Forall (fun o => isSubmit o = false)
    (fst (exec1 answers (Driver.loop vars clear (Driver.submitNextBatch r)))).
Proof.
  intros H. apply loop_failed in H as (-> & rec & err & rest & E).
  rewrite loop_exec, E.
  pose proof (clearPending_no_submit vars answers) as Hs. rewrite E in Hs. cbn [fst] in Hs.
  destruct rest as [|a1 [|a2 rest]]; cbn [fst]; [exact Hs| |];
    (apply Forall_app; split; [exact Hs|repeat constructor]).
Qed.

Lemma loop_failed_exits vars clear r answers a1 a2 :
  Exists (fun x => failedReconcile x = true)
    (fst (exec1 answers (Driver.loop vars clear (Driver.submitNextBatch r)))) ->
  exists tr,
    exec1 (answers ++ [a1; a2]) (Driver.loop vars clear (Driver.submitNextBatch r))
    = (tr, Exited 1).
Proof.
  intros H. apply loop_failed in H as (-> & rec & err & rest & E).
  rewrite loop_exec, exec1_app, E.
  destruct rest as [|b1 [|b2 rest]]; cbn [app]; eexists; reflexivity.
Qed.

Lemma process_app env startup s s' tr p :
  process env startup s = (tr, Launched p) ->
  process env startup (s ++ s') = (tr, Launched (runPool s' p)).
Proof.
  unfold process.
  destruct (exec1 startup (Driver.run env)) as [tr' [|[err|loops] rest|code]];
    try discriminate.
  intros H. inversion H. rewrite runPool_app. reflexivity.
Qed.

Lemma process_no_task env startup schedule tr p r :
  process env startup schedule = (tr, Launched p) ->
  taskOf r p = None -> ofRole r (history p) = [].
Proof.
  intros H Hn. apply process_launched in H as [_ Hp].
  destruct (startPool_launch (loadedVars env) (clearFlag env)) as (He & Hh & Ht).
  destruct (pool_projection schedule r _ He) as [answers E].
  rewrite Hp, E, Hh.
  destruct (taskOf r (startPool _)) as [t|] eqn:Hr0; [|reflexivity].
  rewrite Hp in Hn.
  pose proof (runPool_taskOf_Some schedule r _ (ex_intro _ t Hr0)) as [t' Ht'].
  congruence.
Qed.

Lemma isSubmitOf_true r o : isSubmitOf r o = true -> isSubmit o = true.
Proof. destruct o as [X e x]. destruct e; cbn; congruence. Qed.

(** C4, as the code has it.  A rejection met by the reconciliation of a
    loop is fatal: that loop never calls [submitNextBatch] (nor does anybody
    call it on its Submitter), an exit of the process has status 1, and
    the process has exited with status 1 by the time the loop has been
    given two more answers (the error is logged, then [process.exit(1)]).
    The other loop reconciles on its own and may have submitted before;
    with no other loop, [submitNextBatch] is never called at all. *)
Theorem reconciliation_failure_is_fatal env startup schedule tr p r :
  process env startup schedule = (tr, Launched p) ->
  Exists (fun x => failedReconcile x = true) (ofRole r (history p)) ->
  Forall (fun c => isSubmitOf r (snd c) = false) (history p) /\
  (forall code, exited p = Some code -> code = 1%Z) /\
  (forall a1 a2, exists p',
      process env startup (schedule ++ [(r, a1); (r, a2)]) = (tr, Launched p') /\
      exited p' = Some 1%Z) /\
  (taskOf (otherRole r) p = None ->
   Forall (fun c => isSubmit (snd c) = false) (history p)).
Proof.
  intros H Hf.
  pose proof (process_history_always env _ _ _ _ H) as Hh.
  pose proof (process_launched env _ _ _ _ H) as [_ Hp].
  destruct (startPool_launch (loadedVars env) (clearFlag env)) as (He & Hn & Ht).
  destruct (process_projection _ _ _ _ _ r H) as [answers E].
  destruct (String.eqb (loadedVars env !!! runFlag r) "true") eqn:Hflag;
    [|rewrite E in Hf; inversion Hf].
  assert (Forall (fun o => isSubmit o = false) (ofRole r (history p))) as Hown.
  { rewrite E in *. apply loop_failed_no_submit, Hf. }
  split; [|split; [|split]].
  - apply List.Forall_forall. intros [r' o] Hin.
    eapply List.Forall_forall in Hh; [|exact Hin]. cbn [fst snd] in *.
    destruct (isSubmitOf r o) eqn:Hs; [|reflexivity].
    pose proof (loopObs_submitOf _ _ _ _ Hh Hs). subst r'.
    apply in_ofRole in Hin. eapply List.Forall_forall in Hown; [|exact Hin].
    apply isSubmitOf_true in Hs. congruence.
  - intros code Hx. eapply process_exit; eassumption.
  - intros a1 a2. exists (runPool [(r, a1); (r, a2)] p).
    split; [apply process_app, H|].
    destruct (exited p) as [code|] eqn:Hx.
    + rewrite (runPool_exited _ _ code Hx), Hx.
      f_equal. eapply process_exit; eassumption.
    + specialize (Ht r). rewrite Hflag in Ht.
      destruct (pool_residual schedule r _ _ He Ht) as (ans & E1 & E2 & E3).
      rewrite <- Hp in E1, E2, E3. rewrite Hn in E1. cbn [ofRole List.filter map app] in E1.
      rewrite E1 in Hf.
      destruct (loop_failed_exits _ _ _ _ a1 a2 Hf) as [tr' Hexit].
      rewrite exec1_app in Hexit. specialize (E3 Hx).
      destruct (exec1 ans _) as [tr1 s1]. cbn [snd] in E3. subst s1.
      destruct (exec1 [a1; a2] _) as [tr2 s2] eqn:E4. injection Hexit as _ ->.
      apply (pool_role_exit r [a1; a2] p _ _ _ Hx E2 E4).
  - intros Ho. apply List.Forall_forall. intros [r' o] Hin. cbn [snd].
    apply in_ofRole in Hin. destruct (role_eqb r' r) eqn:Hr.
    + apply role_eqb_eq in Hr. subst r'.
      eapply List.Forall_forall in Hown; [exact Hown|exact Hin].
    + assert (r' = otherRole r) as -> by (destruct r, r'; cbn in *; congruence).
      rewrite (process_no_task _ _ _ _ _ _ H Ho) in Hin. destruct Hin.
Qed.

Lemma reconciliation_failure_is_fatal_witness :
  exists tr p,
    process (envWith "false" "true" "true") startupOk
      [(StateBatch, idle); (StateBatch, rejecting {| message := "timeout" |})]
    = (tr, Launched p) /\
    exited p = None /\
    Forall (fun c => isSubmit (snd c) = false) (history p) /\
    exists p',
      process (envWith "false" "true" "true") startupOk
        ([(StateBatch, idle); (StateBatch, rejecting {| message := "timeout" |})]
         ++ [(StateBatch, idle); (StateBatch, idle)])
      = (tr, Launched p') /\
      exited p' = Some 1%Z.
Proof.
  assert (exists tr p,
    process (envWith "false" "true" "true") startupOk
      [(StateBatch, idle); (StateBatch, rejecting {| message := "timeout" |})]
    = (tr, Launched p) /\
    exited p = None /\
    Exists (fun x => failedReconcile x = true) (ofRole StateBatch (history p)) /\
    taskOf (otherRole StateBatch) p = None)
    as (tr & p & H & Hx & Hf & Ho).
  { eexists _, _. vm_compute. repeat split.
    apply Exists_cons_tl, Exists_cons_hd. reflexivity. }
  exists tr, p. split; [exact H|]. split; [exact Hx|].
  destruct (reconciliation_failure_is_fatal _ _ _ _ _ _ H Hf) as (_ & _ & H3 & H4).
  split; [exact (H4 Ho)|]. apply H3.
Defined.

(** C4 as the specification words it does not hold: the state-batch loop
    fails to read a count and the process exits with status 1, after the
    transaction-batch loop has been through its own reconciliation and has
    called [submitNextBatch]. *)
Lemma reconciliation_failure_after_submit :
  exists tr p,
    process envBoth startupOk txFirstThenFailure = (tr, Launched p) /\
    exited p = Some 1%Z /\
    map (fun c => (fst c, failedReconcile (snd c), isSubmit (snd c), isExit (snd c)))
      (history p) =
      [ (TxBatch, false, false, false); (TxBatch, false, false, false);
        (TxBatch, false, true, false);
        (StateBatch, false, false, false); (StateBatch, true, false, false);
        (StateBatch, false, false, false); (StateBatch, false, false, true) ].
Proof.
  eexists _, _. vm_compute. repeat split; reflexivity.
Qed.

(** ** The reconciliation against the chain *)

Lemma replay_app c tr1 tr2 : replay c (tr1 ++ tr2) = replay (replay c tr1) tr2.
Proof. apply fold_left_app. Qed.

Lemma consistent_app c tr1 tr2 :
  consistent c (tr1 ++ tr2) <-> consistent c tr1 /\ consistent (replay c tr1) tr2.
Proof.
  revert c. induction tr1 as [|o tr1 IH]; intros c; cbn [app consistent replay fold_left].
  - tauto.
  - rewrite IH. unfold replay. tauto.
Qed.

Lemma round_on_chain nc i address response receipt c :
  latestCount c = i -> (i < pendingCount c)%N ->
  consistent c (clearedRound nc i address response receipt) ->
  latestCount (replay c (clearedRound nc i address response receipt)) = (i + 1)%N /\
  pendingCount (replay c (clearedRound nc i address response receipt)) = pendingCount c.
Proof.
  destruct c as [self lat pen]. cbn [latestCount pendingCount]. intros -> Hlt.
  unfold clearedRound. cbn [consistent answeredBy chainAfter chainReply nonce
                            latestCount pendingCount selfAddress].
  rewrite N.ltb_irrefl. intros (_ & Hs & _ & _ & _).
  apply (f_equal (fun x => match x with inr r => tx_nonce r | inl _ => i end)) in Hs.
  cbn in Hs.
  unfold replay. cbn [fold_left chainAfter nonce pendingCount latestCount selfAddress].
  replace (i =? pen)%N with false by (symmetry; apply N.eqb_neq; lia).
  rewrite Hs, N.eqb_refl. cbn [latestCount pendingCount]. split; lia.
Qed.

Lemma rounds_on_chain nc p i tr o :
  roundsFrom nc p i tr o -> o = Some (inr tt) ->
  forall c, latestCount c = i -> pendingCount c = p -> (i <= p)%N ->
  consistent c tr ->
  latestCount (replay c tr) = p /\ pendingCount (replay c tr) = p.
Proof.
  induction 1 as [i H|i|i err H|i a H|i a err H|i a r H|i a r H|i a r err H
                 |i a r rc tr o H Hr IH]; intros Ho c Hl Hp Hle Hc; try discriminate.
  - cbn. split; [lia|exact Hp].
  - apply consistent_app in Hc as [Hc1 Hc2]. rewrite replay_app.
    destruct (round_on_chain nc i a r rc c Hl ltac:(lia) Hc1) as [H1 H2].
    apply IH; auto; lia.
Qed.

(** C6.  Modelled from the spec: against the chain (nonce window and
    Confirmation Waiter as the specification describes them), a
    reconciliation that starts with [pending > latest] and completes
    without error leaves the two counts equal, at the value [pending] had:
    every stuck nonce has been mined. *)
Theorem reconciliation_closes_gap vars c answers tr rest :
  (latestCount c < pendingCount c)%N ->
  exec1 answers (Driver.clearPending vars) = (tr, Returned (inr tt) rest) ->
  consistent c tr ->
  pendingCount (replay c tr) = latestCount (replay c tr) /\
  latestCount (replay c tr) = pendingCount c.
Proof.
  intros Hlt E Hc.
  pose proof (clearPending_reconciled vars answers) as Hr.
  rewrite E in Hr. cbn [fst snd settled] in Hr.
  inversion Hr as [| | | |p l Hle Htr|p l Hl' Htr|p l body o Hl' Hb Htr]; subst.
  - exfalso. destruct Hc as (H1 & H2 & _). cbn in H1, H2.
    apply (f_equal (fun x => match x with inr n => n | inl _ => 0%N end)) in H1, H2.
    cbn in H1, H2. lia.
  - destruct Hc as (H1 & H2 & _ & Hc). cbn in H1, H2.
    apply (f_equal (fun x => match x with inr n => n | inl _ => 0%N end)) in H1, H2.
    cbn in H1, H2. subst p l.
    change (replay c _) with (replay c body).
    destruct (rounds_on_chain _ _ _ _ _ Hb eq_refl c eq_refl eq_refl ltac:(lia) Hc)
      as [H3 H4].
    rewrite H3, H4. split; reflexivity.
Qed.

Lemma reconciliation_closes_gap_witness :
  latestCount
    (replay window58
       (fst (exec1 (reconcilingAnswers window58)
               (Driver.clearPending (<["NUM_CONFIRMATIONS" := "2"]> ∅))))) = 8%N.
Proof.
  assert (exists tr,
    exec1 (reconcilingAnswers window58)
      (Driver.clearPending (<["NUM_CONFIRMATIONS" := "2"]> ∅))
    = (tr, Returned (inr tt) []) /\ consistent window58 tr) as (tr & E & Hc).
  { eexists. vm_compute. repeat split. }
  rewrite E. cbn [fst].
  apply (reconciliation_closes_gap _ window58 _ tr [] ltac:(reflexivity) E Hc).
Defined.

(** ** Two runs side by side *)

Lemma always_tau P {R} (t t' : itree ioE R) :
  always P t -> observe t = TauF t' -> always P t'.
Proof.
  intros H Ho answers. specialize (H (idle :: answers)).
  cbn in H. rewrite Ho in H. exact H.
Qed.

Lemma always_vis P {R X} (t : itree ioE R) (e : ioE X) k (a : answerer) :
  always P t -> observe t = VisF e k ->
  P (Obs e (a _ e)) /\ (exitCode e = None -> always P (k (a _ e))).
Proof.
  intros H Ho. split.
  - specialize (H [a]). cbn in H. rewrite Ho in H.
    destruct (exitCode e); [|destruct (observe (k (a X e)))]; inversion H; assumption.
  - intros Hc answers. specialize (H (a :: answers)). cbn in H. rewrite Ho, Hc in H.
    destruct (exec1 answers (k (a X e))). inversion H; assumption.
Qed.

Lemma neverExits_observe {R} (t u : itree ioE R) :
  observe t = observe u -> neverExits u -> neverExits t.
Proof.
  intros E H answers code. rewrite (exec1_observe t u answers E). apply H.
Qed.

Lemma neverExits_tau {R} (t t' : itree ioE R) :
  neverExits t -> observe t = TauF t' -> neverExits t'.
Proof.
  intros H Ho answers code. specialize (H (idle :: answers) code).
  cbn in H. rewrite Ho in H. exact H.
Qed.

Lemma neverExits_vis {R X} (t : itree ioE R) (e : ioE X) k (a : answerer) :
  neverExits t -> observe t = VisF e k ->
  exitCode e = None /\ neverExits (k (a _ e)).
Proof.
  intros H Ho. destruct (exitCode e) as [code|] eqn:Hc.
  - exfalso. apply (H [a] code). cbn. rewrite Ho, Hc. reflexivity.
  - split; [reflexivity|]. intros answers code.
    specialize (H (a :: answers) code). cbn in H. rewrite Ho, Hc in H.
    destruct (exec1 answers (k (a X e))). exact H.
Qed.

Lemma not_submit_not_txSubmit {X} (e : ioE X) x :
  isSubmit (Obs e x) = false -> isTxSubmit e = false.
Proof. destruct e; cbn; congruence. Qed.

(** A loop that is past its reconciliation moves without the state-batch
    role seeing anything. *)
Lemma poolStep_tx_quiet a p t :
  exited p = None -> txLoop p = Some t -> neverExits t ->
  exited (poolStep (TxBatch, a) p) = None /\
  stateLoop (poolStep (TxBatch, a) p) = stateLoop p /\
  ofRole StateBatch (history (poolStep (TxBatch, a) p)) = ofRole StateBatch (history p) /\
  exists t', txLoop (poolStep (TxBatch, a) p) = Some t' /\ neverExits t'.
Proof.
  intros Hx Ht Hn. unfold poolStep. cbn [taskOf]. rewrite Hx, Ht.
  destruct (observe t) as [v|t'|X e k] eqn:Ho; [destruct v| |].
  - cbn. repeat split; auto. exists t'. split; [reflexivity|].
    eapply neverExits_tau; eassumption.
  - destruct (neverExits_vis t e k a Hn Ho) as [Hc Hk]. rewrite Hc.
    cbn [setTask record exited stateLoop history txLoop].
    rewrite ofRole_app, ofRole_one. cbn [role_eqb]. rewrite app_nil_r.
    repeat split; auto. eexists. split; [reflexivity|exact Hk].
Qed.

Ltac related :=
  unfold poolsRelated;
  cbn [exited stateLoop history txLoop setTask record halt];
  rewrite ?ofRole_app, ?ofRole_one; cbn [role_eqb]; rewrite ?app_nil_r;
  split; [try congruence|split; [try congruence|split; [try congruence|]]].

Lemma poolStep_related vars c1 c2 p1 p2 :
  sameButTxSubmitter c1 c2 ->
  poolsRelated vars p1 p2 ->
  poolsRelated vars (poolStep c1 p1) (poolStep c2 p2).
Proof.
  destruct c1 as [r a1], c2 as [r2 a2]. intros [Hr Ha] (Hx & Hs & Hh & Ht).
  cbn [fst snd] in Hr, Ha. subst r2.
  destruct (exited p1) as [code|] eqn:Hx1.
  { unfold poolStep. rewrite Hx1, <- Hx. related. exact Ht. }
  symmetry in Hx. destruct r.
  - (* the transaction-batch loop moves *)
    assert (forall a b, txLoop p1 = Some a -> txLoop p2 = Some b ->
              neverExits a -> neverExits b ->
              poolsRelated vars (poolStep (TxBatch, a1) p1) (poolStep (TxBatch, a2) p2))
      as Hquiet.
    { intros a b Ea Eb Na Nb.
      destruct (poolStep_tx_quiet a1 p1 a Hx1 Ea Na) as (Q1 & Q2 & Q3 & t1' & Q4 & Q5).
      destruct (poolStep_tx_quiet a2 p2 b Hx Eb Nb) as (R1 & R2 & R3 & t2' & R4 & R5).
      split; [congruence|]. split; [congruence|]. split; [congruence|].
      right. exists t1', t2'. auto. }
    destruct Ht as [[Heq [Hnone|(u & Hu & Hal)]]|(a & b & Ea & Eb & Na & Nb)].
    + unfold poolStep. cbn [taskOf]. rewrite Hx1, Hx, <- Heq, Hnone.
      related. left. split; [congruence|]. left. assumption.
    + destruct (observe u) as [v|u'|X e k] eqn:Ho.
      * (* the reconciliation is over *)
        apply (Hquiet _ _ Hu (eq_trans (eq_sym Heq) Hu)).
        -- eapply neverExits_observe; [|apply (submissionLoop_neverExits vars TxBatch)].
           rewrite observe_bind, Ho. reflexivity.
        -- eapply neverExits_observe; [|apply (submissionLoop_neverExits vars TxBatch)].
           rewrite observe_bind, Ho. reflexivity.
      * unfold poolStep. cbn [taskOf]. rewrite Hx1, Hx, <- Heq, Hu.
        rewrite observe_bind, Ho. cbn [observe _observe setTask].
        related.
        left. split; [reflexivity|]. right. eexists. split; [reflexivity|].
        eapply always_tau; eassumption.
      * destruct (always_vis _ u e k a1 Hal Ho) as [Hp Hk].
        apply not_submit_not_txSubmit in Hp.
        assert (a1 X e = a2 X e) as Hsame.
        { destruct (Ha X e) as [E|[_ E]]; [exact E|congruence]. }
        unfold poolStep. cbn [taskOf]. rewrite Hx1, Hx, <- Heq, Hu.
        rewrite observe_bind, Ho. cbn [observe _observe]. rewrite <- Hsame.
        destruct (exitCode e) as [code|] eqn:Hc.
        -- related. left. split; [congruence|]. right.
           exists u. split; [exact Hu|exact Hal].
        -- related. left. split; [reflexivity|]. right.
           eexists. split; [reflexivity|]. apply Hk. reflexivity.
    + apply (Hquiet a b); assumption.
  - (* the state-batch loop moves *)
    assert (forall X (e : ioE X), a1 X e = a2 X e) as Hsame.
    { intros X e. destruct (Ha X e) as [E|[E _]]; [exact E|discriminate]. }
    unfold poolStep. cbn [taskOf]. rewrite Hx1, Hx, <- Hs.
    destruct (stateLoop p1) as [t|] eqn:Et; [|related; exact Ht].
    destruct (observe t) as [v|t'|X e k] eqn:Ho; [destruct v| |].
    + related. exact Ht.
    + rewrite <- Hsame. destruct (exitCode e) as [code|].
      * related. exact Ht.
      * related. exact Ht.
Qed.

Lemma runPool_related vars s1 s2 :
  Forall2 sameButTxSubmitter s1 s2 ->
  forall p1 p2, poolsRelated vars p1 p2 ->
  poolsRelated vars (runPool s1 p1) (runPool s2 p2).
Proof.
  induction 1 as [|c1 c2 s1 s2 Hc _ IH]; intros p1 p2 Hp; [exact Hp|].
  rewrite !runPool_cons. apply IH, poolStep_related; assumption.
Qed.

Lemma startPool_related vars clear :
  poolsRelated vars (startPool (Driver.launch vars clear))
    (startPool (Driver.launch vars clear)).
Proof.
  repeat split. left. split; [reflexivity|].
  destruct (startPool_launch vars clear) as (_ & _ & Ht).
  specialize (Ht TxBatch). cbn [taskOf runFlag] in Ht. rewrite Ht.
  destruct (String.eqb _ _); [right|left; reflexivity].
  eexists. split; [reflexivity|].
  destruct clear; [|apply always_ret].
  apply always_bind; [apply clearPending_no_submit|].
  intros [err|[]]; repeat always_step; reflexivity.
Qed.

(** C5.  Two runs of the process that differ only by what
    [submitNextBatch] of the transaction-batch Submitter gives to the
    transaction-batch loop (always a rejection in one, never one in the
    other, or anything else): the interactions of the state-batch loop,
    calls of [submitNextBatch] and sleeps included, are the same in both,
    and so is the exit status. *)
Theorem state_loop_unaffected_by_tx_submitter env startup s1 s2 tr p1 :
  Forall2 sameButTxSubmitter s1 s2 ->
  process env startup s1 = (tr, Launched p1) ->
  exists p2,
    process env startup s2 = (tr, Launched p2) /\
    ofRole StateBatch (history p1) = ofRole StateBatch (history p2) /\
    exited p1 = exited p2.
Proof.
  intros Hs H. pose proof (process_launched env _ _ _ _ H) as [_ Hp].
  exists (runPool s2 (startPool (Driver.launch (loadedVars env) (clearFlag env)))).
  split.
  - revert H. unfold process.
    destruct (exec1 startup (Driver.run env)) as [tr' [|[err|loops] rest|code]] eqn:E;
      try discriminate.
    intros H. apply run_returned in E as [_ ->]. inversion H. reflexivity.
  - destruct (runPool_related (loadedVars env) s1 s2 Hs _ _
                (startPool_related (loadedVars env) (clearFlag env)))
      as (Hx & _ & Hh & _).
    rewrite Hp. auto.
Qed.

Lemma sameButTxSubmitter_tx o1 o2 :
  sameButTxSubmitter (TxBatch, txSubmitted o1) (TxBatch, txSubmitted o2).
Proof.
  split; [reflexivity|]. intros X e. cbn [fst snd].
  destruct e; try (left; reflexivity).
  destruct r; [right; split; reflexivity|left; reflexivity].
Qed.

Lemma sameButTxSubmitter_refl c : sameButTxSubmitter c c.
Proof. split; [reflexivity|]. intros X e. left. reflexivity. Qed.

Lemma state_loop_unaffected_by_tx_submitter_witness :
  let historyWith o :=
    match snd (process (envWith "true" "true" "false") startupOk (alternating o)) with
    | Launched p => history p
    | _ => []
    end in
  ofRole TxBatch (historyWith (inl {| message := "reverted" |})) <>
  ofRole TxBatch (historyWith (inr {| transactionHash := "0xabc" |})) /\
  ofRole StateBatch (historyWith (inl {| message := "reverted" |})) =
  ofRole StateBatch (historyWith (inr {| transactionHash := "0xabc" |})).
Proof.
  cbv zeta. split.
  - intros E. apply (f_equal (@length _)) in E. vm_compute in E. discriminate.
  - assert (exists tr p1,
      process (envWith "true" "true" "false") startupOk
        (alternating (inl {| message := "reverted" |})) = (tr, Launched p1))
      as (tr & p1 & H1) by (eexists _, _; vm_compute; reflexivity).
    assert (Forall2 sameButTxSubmitter
              (alternating (inl {| message := "reverted" |}))
              (alternating (inr {| transactionHash := "0xabc" |}))) as Hs
      by (unfold alternating;
          repeat (apply List.Forall2_cons;
                  [first [apply sameButTxSubmitter_tx | apply sameButTxSubmitter_refl]|]);
          apply List.Forall2_nil).
    destruct (state_loop_unaffected_by_tx_submitter _ _ _ _ _ _ Hs H1)
      as (p2 & H2 & Hh & _).
    rewrite H1, H2. exact Hh.
Defined.

(** * Further properties of the driver *)

(** ** Validation of the environment *)

Lemma find_first {A} (f : A -> bool) before x after :
  Forall (fun y => f y = false) before -> f x = true ->
  List.find f (before ++ x :: after) = Some x.
Proof.
  induction 1 as [|y before Hy _ IH]; intros Hx; cbn.
  - rewrite Hx. reflexivity.
  - rewrite Hy. apply IH, Hx.
Qed.

(** Only the first required variable that is unset or empty, in the order
    of the object literal, is reported: [run] logs it and exits with status
    1, whatever else is missing. *)
Theorem first_missing_variable_is_reported env before val after a b c startup schedule :
  map snd Driver.requiredEnvVarsEntries = (before ++ val :: after)%list ->
  Forall (fun k => truthy (env !! k) = true) before ->
  truthy (env !! val) = false ->
  process env (a :: b :: c :: startup) schedule =
  ([Obs (LogInfo "Starting batch submitter...") tt;
    Obs (LogError ("Missing enviornment variable: " ++ val) None) tt;
    Obs (ProcessExit 1) tt], ExitedAtStartup 1).
Proof.
  intros Hn Hb Hv.
  assert (firstMissing env = Some val) as Hm.
  { unfold firstMissing. rewrite Hn. apply find_first.
    - eapply Forall_impl; [exact Hb|]. cbn beta. intros k ->. reflexivity.
    - rewrite Hv. reflexivity. }
  rewrite (process_missing env val _ schedule Hm). reflexivity.
Qed.

Lemma first_missing_variable_is_reported_witness :
  process (envWith "" "" "true") startupOk txFirst =
  ([Obs (LogInfo "Starting batch submitter...") tt;
    Obs (LogError "Missing enviornment variable: RUN_TX_BATCH_SUBMITTER" None) tt;
    Obs (ProcessExit 1) tt], ExitedAtStartup 1).
Proof.
  apply (first_missing_variable_is_reported (envWith "" "" "true")
    [ "L1_NODE_WEB3_URL"; "L2_NODE_WEB3_URL"; "MIN_TX_SIZE"; "MAX_TX_SIZE";
      "MAX_BATCH_SIZE"; "MAX_BATCH_SUBMISSION_TIME"; "POLL_INTERVAL";
      "NUM_CONFIRMATIONS"; "RESUBMISSION_TIMEOUT"; "FINALITY_CONFIRMATIONS" ]
    "RUN_TX_BATCH_SUBMITTER"
    [ "RUN_STATE_BATCH_SUBMITTER"; "SAFE_MINIMUM_ETHER_BALANCE"; "CLEAR_PENDING_TXS";
      "ADDRESS_MANAGER_ADDRESS" ]).
  - reflexivity.
  - repeat constructor.
  - vm_compute. reflexivity.
Defined.

(** ** The startup sequence *)

Lemma run_loaded env a0 startup :
  firstMissing env = None ->
  exec1 (a0 :: startup) (Driver.run env) =
  let '(tr, s) :=
    exec1 startup
      (ITree.trigger (NewJsonRpcProvider (env !!! "L1_NODE_WEB3_URL"));;
       ITree.trigger (NewOptimismProvider (env !!! "L2_NODE_WEB3_URL"));;
       _ <-? Driver.newSequencerSigner env;;
       address <-? ITree.trigger GetAddress;;
       ITree.trigger (LogInfo ("Using sequencer address: " ++ address));;
       chainId <-? ITree.trigger (L2Send "eth_chainId");;
       ITree.trigger (NewTransactionBatchSubmitter
                        (Driver.txBatchSubmitterArgs env (loadedVars env)));;
       ITree.trigger (SetChainId TxBatch chainId);;
       ITree.trigger (NewStateBatchSubmitter
                        (Driver.stateBatchSubmitterArgs env (loadedVars env)));;
       ITree.trigger (SetChainId StateBatch chainId);;
       Ret (inr (Driver.launch (loadedVars env) (clearFlag env)))) in
  (Obs (LogInfo "Starting batch submitter...") tt :: tr, s).
Proof.
  intros H. unfold Driver.run, clearFlag. repeat exec_step.
  destruct (a0 _ (LogInfo _)).
  rewrite exec1_bind, checkRequired_exec. fold (firstMissing env). rewrite H.
  fold (loadedVars env).
  rewrite !(loadedVars_lookup env "L1_NODE_WEB3_URL") by (cbn; auto 20).
  rewrite !(loadedVars_lookup env "L2_NODE_WEB3_URL") by (cbn; auto 20).
  match goal with |- context [exec1 startup ?t] => destruct (exec1 startup t) as [tr s] end.
  reflexivity.
Qed.

Ltac next startup :=
  destruct startup as [|? startup]; repeat exec_step; cbn [fst snd];
  [try exact I|].

(** Every way [run] can go once the required variables are all there. *)
Lemma run_cases env startup :
  firstMissing env = None ->
  match snd (exec1 startup (Driver.run env)) with
  | Pending => True
  | Exited _ => False
  | Returned (inl err) _ =>
      Forall (fun o => constructsSubmitter o = false /\ isExit o = false)
        (fst (exec1 startup (Driver.run env))) /\
      (err = {| message := "Must pass one of SEQUENCER_PRIVATE_KEY or MNEMONIC" |} /\
       truthy (Driver.SEQUENCER_PRIVATE_KEY env) = false /\
       truthy (Driver.MNEMONIC env) = false
       \/
       exists tr' o,
         fst (exec1 startup (Driver.run env)) = (tr' ++ [o])%list /\
         errorOf o = Some err)
  | Returned (inr loops) _ =>
      (truthy (Driver.SEQUENCER_PRIVATE_KEY env) = true \/
       truthy (Driver.MNEMONIC env) = true) /\
      exists address chainId,
        fst (exec1 startup (Driver.run env)) = startupTrace env address chainId
  end.
Proof.
  intros Hm. destruct startup as [|a0 startup].
  { cbn. destruct (observe (Driver.run env)); exact I. }
  rewrite (run_loaded env a0 startup Hm).
  next startup. destruct (a _ (NewJsonRpcProvider _)).
  next startup. destruct (a1 _ (NewOptimismProvider _)).
  unfold Driver.newSequencerSigner.
  destruct (truthy (Driver.SEQUENCER_PRIVATE_KEY env)) eqn:Hk;
    [|destruct (truthy (Driver.MNEMONIC env)) eqn:Hn].
  3: { repeat exec_step. cbn [fst snd]. split; [repeat constructor|]. left. auto. }
  all: next startup;
    match goal with
    | |- context [?a _ (NewWallet ?k)] => is_var a; destruct (a _ (NewWallet k)) as [err|[]]
    | |- context [?a _ (WalletFromMnemonic ?m ?p)] => is_var a;
        destruct (a _ (WalletFromMnemonic m p)) as [err|[]]
    end; repeat exec_step; cbn [fst snd];
    try (split; [repeat constructor|right;
                 eexists [_; _; _], _; split; [reflexivity|reflexivity]]).
  all: next startup;
    match goal with
    | |- context [?a _ GetAddress] => is_var a; destruct (a _ GetAddress) as [err|address]
    end; repeat exec_step; cbn [fst snd];
    try (split; [repeat constructor|right;
                 eexists [_; _; _; _], _; split; [reflexivity|reflexivity]]).
  all: next startup;
    match goal with
    | |- context [?a _ (LogInfo ?m)] => is_var a; destruct (a _ (LogInfo m))
    end.
  all: next startup;
    match goal with
    | |- context [?a _ (L2Send ?m)] => is_var a; destruct (a _ (L2Send m)) as [err|chainId]
    end; repeat exec_step; cbn [fst snd];
    try (split; [repeat constructor|right;
                 eexists [_; _; _; _; _; _], _; split; [reflexivity|reflexivity]]).
  all: next startup;
    match goal with
    | |- context [?a _ (NewTransactionBatchSubmitter ?m)] => is_var a;
        destruct (a _ (NewTransactionBatchSubmitter m))
    end.
  all: next startup;
    match goal with
    | |- context [?a _ (SetChainId ?r ?m)] => is_var a; destruct (a _ (SetChainId r m))
    end.
  all: next startup;
    match goal with
    | |- context [?a _ (NewStateBatchSubmitter ?m)] => is_var a;
        destruct (a _ (NewStateBatchSubmitter m))
    end.
  all: next startup;
    match goal with
    | |- context [?a _ (SetChainId ?r ?m)] => is_var a; destruct (a _ (SetChainId r m))
    end.
  all: split; [auto|]; exists address, chainId;
    unfold startupTrace, signerObs; rewrite ?Hk, ?Hn; reflexivity.
Qed.

(** A loop that gets fired comes after the whole startup sequence: both
    providers, the signer, its address, the chain id of the L2 node, and
    both Submitters, each given that chain id, whichever roles are enabled. *)
Theorem loops_follow_full_startup env startup schedule tr p :
  process env startup schedule = (tr, Launched p) ->
  (truthy (Driver.SEQUENCER_PRIVATE_KEY env) = true \/
   truthy (Driver.MNEMONIC env) = true) /\
  exists address chainId, tr = startupTrace env address chainId.
Proof.
  intros H. pose proof (process_launched env _ _ _ _ H) as [Hm _].
  pose proof (run_cases env startup Hm) as C.
  unfold process in H.
  destruct (exec1 startup (Driver.run env)) as [tr' [|[err|loops] rest|code]];
    try discriminate.
  cbn [fst snd] in C. destruct C as [Hs (address & chainId & ->)].
  split; [exact Hs|]. exists address, chainId.
  apply (f_equal fst) in H. cbn [fst] in H. symmetry. exact H.
Qed.

Lemma loops_follow_full_startup_witness :
  exists p address chainId,
    process (envWith "false" "false" "false") startupOk [] =
      (startupTrace (envWith "false" "false" "false") address chainId, Launched p).
Proof.
  assert (exists tr p,
            process (envWith "false" "false" "false") startupOk [] = (tr, Launched p))
    as (tr & p & H) by (eexists _, _; vm_compute; reflexivity).
  destruct (loops_follow_full_startup _ _ _ _ _ H) as [_ (address & chainId & E)].
  exists p, address, chainId. rewrite <- E. exact H.
Defined.

(** The promise of [run] rejects only past the validation, before any
    Submitter is constructed and without any exit: with the [Must pass one
    of ...] error when there is neither key nor mnemonic, and otherwise with
    the error of the interaction it stopped at (the signer's construction,
    [getAddress] or [eth_chainId]). *)
Theorem startup_rejection env startup schedule tr err :
  process env startup schedule = (tr, Rejected err) ->
  firstMissing env = None /\
  Forall (fun o => constructsSubmitter o = false /\ isExit o = false) tr /\
  (err = {| message := "Must pass one of SEQUENCER_PRIVATE_KEY or MNEMONIC" |} /\
   truthy (Driver.SEQUENCER_PRIVATE_KEY env) = false /\
   truthy (Driver.MNEMONIC env) = false
   \/
   exists tr' o, tr = (tr' ++ [o])%list /\ errorOf o = Some err).
Proof.
  intros H. destruct (firstMissing env) as [val|] eqn:Hm.
  { rewrite (process_missing env val startup schedule Hm) in H.
    destruct startup as [|a0 [|a1 [|a2 startup]]]; discriminate. }
  split; [reflexivity|].
  pose proof (run_cases env startup Hm) as C.
  unfold process in H.
  destruct (exec1 startup (Driver.run env)) as [tr' [|[err'|loops] rest|code]];
    try discriminate.
  cbn [fst snd] in C. injection H as <- <-. exact C.
Qed.

Lemma startup_rejection_witness :
  exists tr,
    process (envWith "true" "true" "true")
      [idle; idle; idle; idle; rejecting {| message := "no signer" |}] txFirst =
    (tr, Rejected {| message := "no signer" |}) /\
    Forall (fun o => constructsSubmitter o = false /\ isExit o = false) tr.
Proof.
  assert (exists tr,
            process (envWith "true" "true" "true")
              [idle; idle; idle; idle; rejecting {| message := "no signer" |}] txFirst =
            (tr, Rejected {| message := "no signer" |}))
    as (tr & H) by (eexists; vm_compute; reflexivity).
  exists tr. split; [exact H|].
  apply (startup_rejection _ _ _ _ _ H).
Defined.

(** [run] itself calls [exit] for a missing required variable and for
    nothing else: a process that exits before its loops are fired exits
    with status 1, having logged the variable. *)
Theorem startup_exit_is_missing_variable env startup schedule tr code :
  process env startup schedule = (tr, ExitedAtStartup code) ->
  code = 1%Z /\
  exists val,
    firstMissing env = Some val /\
    tr = [Obs (LogInfo "Starting batch submitter...") tt;
          Obs (LogError ("Missing enviornment variable: " ++ val) None) tt;
          Obs (ProcessExit 1) tt].
Proof.
  intros H. destruct (firstMissing env) as [val|] eqn:Hm.
  - rewrite (process_missing env val startup schedule Hm) in H.
    destruct startup as [|a0 [|a1 [|a2 startup]]]; try discriminate.
    injection H as <- <-. split; [reflexivity|]. exists val. split; reflexivity.
  - pose proof (run_cases env startup Hm) as C.
    unfold process in H.
    destruct (exec1 startup (Driver.run env)) as [tr' [|[err'|loops] rest|c]];
      try discriminate.
    destruct C.
Qed.

Lemma startup_exit_is_missing_variable_witness :
  exists tr, process (envWith "true" "" "true") startupOk txFirst =
             (tr, ExitedAtStartup 1).
Proof.
  assert (exists tr code,
            process (envWith "true" "" "true") startupOk txFirst =
            (tr, ExitedAtStartup code))
    as (tr & code & H) by (eexists _, _; vm_compute; reflexivity).
  destruct (startup_exit_is_missing_variable _ _ _ _ _ H) as [E _].
  exists tr. rewrite <- E. exact H.
Defined.

(** ** The signer *)

Lemma truthy_Some (v : option string) :
  truthy v = true -> exists s, v = Some s /\ s <> "".
Proof.
  destruct v as [[|c s]|]; try discriminate. intros _.
  eexists. split; [reflexivity|discriminate].
Qed.

Lemma run_signer env : always (signerChoice env) (Driver.run env).
Proof.
  unfold Driver.run. always_step; [always_step; exact I|].
  apply always_bind_returned.
  { apply checkRequired_always; intros; exact I. }
  intros answers tr vars rest E.
  apply checkRequired_returned in E as [_ ->]. fold (loadedVars env).
  unfold Driver.newSequencerSigner.
  destruct (truthy (Driver.SEQUENCER_PRIVATE_KEY env)) eqn:Hk;
    [|destruct (truthy (Driver.MNEMONIC env)) eqn:Hn];
    repeat always_step; try exact I.
  - apply truthy_Some in Hk as (key & E & Hs). rewrite E. cbn. auto.
  - apply truthy_Some in Hn as (mnemonic & E & Hs). rewrite E. cbn. auto.
Qed.

(** The private key takes precedence over the mnemonic: a wallet is built
    from a non-empty [SEQUENCER_PRIVATE_KEY], and from the mnemonic (with
    [HD_PATH] as it is, set or not) only when the key is unset or empty. *)
Theorem private_key_takes_precedence env startup schedule :
  Forall (signerChoice env) (fst (process env startup schedule)).
Proof. rewrite process_trace. apply run_signer. Qed.

(** ** The optional variables *)

(** [DISABLE_QUEUE_BATCH_APPEND] is on for any non-empty value, the string
    ['false'] as well; [FRAUD_SUBMISSION_ADDRESS] is the variable when it is
    non-empty and ['no fraud'] otherwise. *)
Theorem optional_variables env startup schedule o :
  In o (fst (process env startup schedule)) ->
  (forall args, txArgsOf o = Some args ->
     tx_disableQueueBatchAppend args = true <->
     exists v, env !! "DISABLE_QUEUE_BATCH_APPEND" = Some v /\ v <> "") /\
  (forall args, stateArgsOf o = Some args ->
     (forall v, env !! "FRAUD_SUBMISSION_ADDRESS" = Some v -> v <> "" ->
        st_fraudSubmissionAddress args = v) /\
     (truthy (env !! "FRAUD_SUBMISSION_ADDRESS") = false ->
        st_fraudSubmissionAddress args = "no fraud")).
Proof.
  intros Hin.
  pose proof (process_startup_always env startup schedule) as Hs.
  eapply List.Forall_forall in Hs; [|exact Hin].
  destruct o as [X e x]. split.
  - intros args Ha. destruct e; try discriminate.
    cbn [startupObs] in Hs. cbn [txArgsOf] in Ha. injection Ha as <-. subst args0.
    unfold Driver.txBatchSubmitterArgs, Driver.DISABLE_QUEUE_BATCH_APPEND.
    cbn [tx_disableQueueBatchAppend]. split.
    + apply truthy_Some.
    + intros (v & -> & Hv). destruct v; [contradiction|reflexivity].
  - intros args Ha. destruct e; try discriminate.
    cbn [startupObs] in Hs. cbn [stateArgsOf] in Ha. injection Ha as <-. subst args0.
    unfold Driver.stateBatchSubmitterArgs, Driver.FRAUD_SUBMISSION_ADDRESS.
    cbn [st_fraudSubmissionAddress]. split.
    + intros v E Hv. rewrite E. destruct v; [contradiction|].
      cbn [truthy]. rewrite lookup_total_alt, E. reflexivity.
    + intros ->. reflexivity.
Qed.

Lemma optional_variables_witness :
  tx_disableQueueBatchAppend
    (Driver.txBatchSubmitterArgs
       (<["DISABLE_QUEUE_BATCH_APPEND" := "false"]> (envWith "true" "true" "false"))
       (loadedVars
          (<["DISABLE_QUEUE_BATCH_APPEND" := "false"]> (envWith "true" "true" "false"))))
  = true.
Proof.
  destruct (optional_variables
              (<["DISABLE_QUEUE_BATCH_APPEND" := "false"]> (envWith "true" "true" "false"))
              startupOk []
              (Obs (NewTransactionBatchSubmitter
                      (Driver.txBatchSubmitterArgs
                         (<["DISABLE_QUEUE_BATCH_APPEND" := "false"]>
                            (envWith "true" "true" "false"))
                         (loadedVars
                            (<["DISABLE_QUEUE_BATCH_APPEND" := "false"]>
                               (envWith "true" "true" "false"))))) tt))
    as [H _].
  - vm_compute. do 7 right. left. reflexivity.
  - apply (H _ eq_refl). exists "false".
    split; [vm_compute; reflexivity|discriminate].
Defined.

(** ** Progress *)

Lemma agreeable_inr (a : answerer) {X} (e : ioE (result X)) :
  agreeable a -> rejected (Obs e (a _ e)) = is_inl (a _ e) ->
  exists x, a _ e = inr x.
Proof.
  intros Ha E. specialize (Ha _ e). rewrite E in Ha.
  destruct (a _ e) as [err|x]; [discriminate|eauto].
Qed.

Lemma fulfilling_agreeable : agreeable fulfilling.
Proof. intros X e. destruct e; reflexivity. Qed.

(** The validation looks at nothing but presence: with every required
    variable non-empty, whatever it holds, and a key or a mnemonic, a
    startup that meets no rejection fires the loops after eleven
    interactions. *)
Theorem startup_completes env startup schedule :
  firstMissing env = None ->
  truthy (Driver.SEQUENCER_PRIVATE_KEY env) = true \/
    truthy (Driver.MNEMONIC env) = true ->
  Forall agreeable startup ->
  (11 <= length startup)%nat ->
  exists address chainId,
    process env startup schedule =
    (startupTrace env address chainId,
     Launched (runPool schedule
                 (startPool (Driver.launch (loadedVars env) (clearFlag env))))).
Proof.
  intros Hm Hs Ha Hl.
  do 11 (destruct startup as [|? startup]; [cbn in Hl; lia|]).
  clear Hl.
  repeat match goal with
         | H : Forall agreeable (_ :: _) |- _ =>
             apply List.Forall_cons_iff in H as [? H]
         end.
  unfold process. rewrite (run_loaded env _ _ Hm).
  unfold startupTrace, signerObs, Driver.newSequencerSigner.
  repeat exec_step.
  match goal with
  | |- context [?a _ (NewJsonRpcProvider ?u)] => is_var a; destruct (a _ (NewJsonRpcProvider u))
  end.
  repeat exec_step.
  match goal with
  | |- context [?a _ (NewOptimismProvider ?u)] => is_var a; destruct (a _ (NewOptimismProvider u))
  end.
  destruct (truthy (Driver.SEQUENCER_PRIVATE_KEY env)) eqn:Hk;
    [|destruct Hs as [Hs|Hs]; [discriminate|]; rewrite Hs];
    repeat exec_step;
    match goal with
    | |- context [?a _ (NewWallet ?k)] =>
        is_var a; destruct (agreeable_inr a (NewWallet k)) as [[] ->];
        [assumption|reflexivity|]
    | |- context [?a _ (WalletFromMnemonic ?m ?p)] =>
        is_var a; destruct (agreeable_inr a (WalletFromMnemonic m p)) as [[] ->];
        [assumption|reflexivity|]
    end;
    repeat exec_step;
    match goal with
    | |- context [?a _ GetAddress] =>
        is_var a; destruct (agreeable_inr a GetAddress) as [address ->];
        [assumption|reflexivity|]
    end;
    repeat exec_step;
    match goal with
    | |- context [?a _ (LogInfo ?m)] => is_var a; destruct (a _ (LogInfo m))
    end;
    repeat exec_step;
    match goal with
    | |- context [?a _ (L2Send ?m)] =>
        is_var a; destruct (agreeable_inr a (L2Send m)) as [chainId ->];
        [assumption|reflexivity|]
    end;
    repeat exec_step;
    match goal with
    | |- context [?a _ (NewTransactionBatchSubmitter ?m)] =>
        is_var a; destruct (a _ (NewTransactionBatchSubmitter m))
    end;
    repeat exec_step;
    match goal with
    | |- context [?a _ (SetChainId ?r ?m)] => is_var a; destruct (a _ (SetChainId r m))
    end;
    repeat exec_step;
    match goal with
    | |- context [?a _ (NewStateBatchSubmitter ?m)] =>
        is_var a; destruct (a _ (NewStateBatchSubmitter m))
    end;
    repeat exec_step;
    match goal with
    | |- context [?a _ (SetChainId ?r ?m)] => is_var a; destruct (a _ (SetChainId r m))
    end;
    exists address, chainId; reflexivity.
Qed.

Lemma startup_completes_witness :
  exists address chainId,
    process (envWith "1" "yes" "TRUE") (repeat fulfilling 11) txFirst =
    (startupTrace (envWith "1" "yes" "TRUE") address chainId,
     Launched (runPool txFirst
                 (startPool (Driver.launch (loadedVars (envWith "1" "yes" "TRUE"))
                                           (clearFlag (envWith "1" "yes" "TRUE")))))).
Proof.
  apply startup_completes.
  - vm_compute. reflexivity.
  - left. vm_compute. reflexivity.
  - cbn [repeat]. repeat constructor; apply fulfilling_agreeable.
  - vm_compute. lia.
Defined.

(** ** The reconciliation, when nothing is rejected *)

Lemma clearNonces_completes vars p n : forall i answers,
  N.to_nat (p - i) = n ->
  Forall agreeable answers ->
  (5 * n <= length answers)%nat ->
  snd (exec1 answers (Driver.clearNonces vars i p)) =
  Returned (inr tt) (drop (5 * n) answers).
Proof.
  induction n as [|n IH]; intros i answers Hn Ha Hl;
    rewrite clearNonces_unfold;
    destruct (N.ltb_spec i p) as [Hlt|Hge]; try lia.
  - rewrite exec1_ret. reflexivity.
  - do 5 (destruct answers as [|? answers]; [cbn in Hl; lia|]).
    repeat match goal with
           | H : Forall agreeable (_ :: _) |- _ =>
               apply List.Forall_cons_iff in H as [? H]
           end.
    replace (5 * S n)%nat with (S (S (S (S (S (5 * n)))))) by lia.
    cbn [drop].
    specialize (IH (i + 1)%N answers).
    rewrite <- IH; [|lia|assumption|cbn in Hl; lia].
    unfold Driver.clearNonce. repeat exec_step.
    match goal with
    | |- context [?a _ GetAddress] =>
        is_var a; destruct (agreeable_inr a GetAddress) as [address ->];
        [assumption|reflexivity|]
    end.
    repeat exec_step.
    match goal with
    | |- context [?a _ (SendTransaction ?tx)] =>
        is_var a; destruct (agreeable_inr a (SendTransaction tx)) as [response ->];
        [assumption|reflexivity|]
    end.
    repeat exec_step.
    match goal with
    | |- context [?a _ (LogInfo ?m)] => is_var a; destruct (a _ (LogInfo m))
    end.
    repeat exec_step.
    match goal with
    | |- context [?a _ (GetReceiptWithResubmission ?x ?y ?z ?t)] =>
        is_var a;
        destruct (agreeable_inr a (GetReceiptWithResubmission x y z t)) as [receipt ->];
        [assumption|reflexivity|]
    end.
    repeat exec_step.
    destruct (exec1 answers (Driver.clearNonces vars (i + 1) p)) as [tr s].
    reflexivity.
Qed.

Lemma roundsFrom_length nc p i tr :
  roundsFrom nc p i tr (Some (inr tt)) ->
  length tr = (4 * N.to_nat (p - i))%nat.
Proof.
  intros H. remember (Some (inr tt)) as o eqn:Ho.
  induction H; try discriminate.
  - cbn. lia.
  - rewrite length_app, IHroundsFrom by assumption. cbn [clearedRound length]. lia.
Qed.

(** With [p] pending and [l < p] latest, a reconciliation that meets no
    rejection comes to its end: it returns, having broadcast at every nonce
    of [l, ..., p-1], after the log and five steps per round (the four
    interactions and the turn of the [for]). *)
Theorem reconciliation_completes vars (a1 a2 : answerer) answers p l :
  a1 _ (GetTransactionCount pending) = inr p ->
  a2 _ (GetTransactionCount latest) = inr l ->
  (l < p)%N ->
  Forall agreeable answers ->
  (1 + 5 * N.to_nat (p - l) <= length answers)%nat ->
  exists tr,
    exec1 (a1 :: a2 :: answers) (Driver.clearPending vars) =
      (tr, Returned (inr tt) (drop (1 + 5 * N.to_nat (p - l)) answers)) /\
    sentNonces tr = nonceRange l p /\
    length tr = (3 + 4 * N.to_nat (p - l))%nat.
Proof.
  intros H1 H2 Hlt Ha Hl.
  destruct answers as [|a3 answers]; [cbn in Hl; lia|].
  apply List.Forall_cons_iff in Ha as [_ Ha].
  unfold Driver.clearPending.
  repeat exec_step. rewrite H1. repeat exec_step. rewrite H2.
  destruct (N.ltb_spec l p) as [_|Hge]; [|lia].
  repeat exec_step. destruct (a3 _ (LogInfo _)).
  pose proof (clearNonces_rounds vars p _ l answers eq_refl) as Hr.
  assert (5 * N.to_nat (p - l) <= length answers)%nat as Hl' by (cbn in Hl; lia).
  pose proof (clearNonces_completes vars p _ l answers eq_refl Ha Hl') as Hc.
  destruct (exec1 answers (Driver.clearNonces vars l p)) as [tr s].
  cbn [fst snd] in Hr, Hc. rewrite Hc in Hr |- *.
  cbn [settled] in Hr.
  eexists. split; [reflexivity|]. split.
  - apply roundsFrom_sentNonces in Hr as [_ Hr]. cbn. apply Hr. reflexivity.
  - cbn [length]. rewrite (roundsFrom_length _ _ _ _ Hr). lia.
Qed.

Lemma reconciliation_completes_witness :
  exists tr rest,
    exec1 (chainReply window58 :: chainReply window58 :: repeat fulfilling 17)
      (Driver.clearPending (envWith "true" "true" "true")) =
      (tr, Returned (inr tt) rest) /\
    sentNonces tr = [5; 6; 7]%N /\ length rest = 1%nat.
Proof.
  destruct (reconciliation_completes (envWith "true" "true" "true")
              (chainReply window58) (chainReply window58) (repeat fulfilling 17) 8 5)
    as (tr & E & Hs & _).
  - reflexivity.
  - reflexivity.
  - lia.
  - cbn [repeat]. repeat constructor; apply fulfilling_agreeable.
  - vm_compute. lia.
  - exists tr, (drop (1 + 5 * N.to_nat (8 - 5)) (repeat fulfilling 17)).
    split; [exact E|]. split; [exact Hs|]. reflexivity.
Defined.

(** ** From the reconciliation to the rounds of submission *)

(** Once its reconciliation has returned, a loop is where a loop without
    reconciliation starts: the next thing it does is [submitNextBatch], and
    it goes on as the bare submission loop would on the answers that are
    left. *)
Theorem submission_follows_reconciliation vars r answers tr (a : answerer) rest :
  exec1 answers (Driver.clearPending vars) = (tr, Returned (inr tt) (a :: rest)) ->
  exists tr',
    exec1 (a :: rest) (Driver.loop vars false (Driver.submitNextBatch r)) =
      (Obs (SubmitNextBatch r) (a _ (SubmitNextBatch r)) :: tr', Pending) /\
    exec1 answers (Driver.loop vars true (Driver.submitNextBatch r)) =
      ((tr ++ Obs (SubmitNextBatch r) (a _ (SubmitNextBatch r)) :: tr')%list, Pending).
Proof.
  intros H. rewrite loop_exec, H.
  unfold Driver.loop at 1. rewrite exec1_ret_bind.
  pose proof (submissionLoop_pending vars r (a :: rest)) as Hp.
  revert Hp. rewrite submissionLoop_unfold. repeat exec_step.
  match goal with
  | |- context [exec1 rest ?t] => destruct (exec1 rest t) as [tr' s]
  end.
  cbn [snd]. intros ->. exists tr'. split; reflexivity.
Qed.

Lemma submission_follows_reconciliation_witness :
  exists tr tr',
    exec1 (reconcilingAnswers window58 ++ [idle; idle])
      (Driver.loop (envWith "true" "true" "true") true (Driver.submitNextBatch StateBatch)) =
    ((tr ++ Obs (SubmitNextBatch StateBatch) (idle _ (SubmitNextBatch StateBatch)) :: tr')%list,
     Pending) /\
    sentNonces tr = [5; 6; 7]%N.
Proof.
  assert (exists tr,
            exec1 (reconcilingAnswers window58 ++ [idle; idle])
              (Driver.clearPending (envWith "true" "true" "true")) =
            (tr, Returned (inr tt) [idle; idle]) /\
            sentNonces tr = [5; 6; 7]%N)
    as (tr & H & Hs) by (eexists; split; vm_compute; reflexivity).
  destruct (submission_follows_reconciliation _ StateBatch _ _ _ _ H) as (tr' & _ & E).
  exists tr, tr'. split; [exact E|exact Hs].
Defined.

(** ** What the driver asks to be broadcast *)

Lemma clearPending_transactions vars :
  always (reconcileObs vars) (Driver.clearPending vars).
Proof.
  unfold Driver.clearPending.
  repeat always_step; try exact I.
  unfold Driver.clearNonces. apply always_iter. intros i.
  unfold Driver.clearNonce.
  repeat always_step; try exact I; cbn; auto.
Qed.

Lemma loop_transactions vars clear r :
  always (reconcileObs vars) (Driver.loop vars clear (Driver.submitNextBatch r)).
Proof.
  unfold Driver.loop. apply always_bind.
  - destruct clear; [|apply always_ret].
    apply always_bind; [apply clearPending_transactions|].
    intros [err|[]]; repeat always_step; exact I.
  - intros _. apply submissionLoop_always; intros; exact I.
Qed.

(** Whatever the loops are answered and however they interleave, the driver
    itself broadcasts nothing but zero-value transactions, and every wait it
    asks of the Confirmation Waiter is without prior attempts, for
    [parseInt(NUM_CONFIRMATIONS)] confirmations and with 60000 ms between
    resubmissions, whatever [RESUBMISSION_TIMEOUT] is; before the loops are
    fired it broadcasts nothing at all. *)
Theorem driver_transactions env startup schedule tr p :
  process env startup schedule = (tr, Launched p) ->
  Forall (fun o => sentNonce o = None) tr /\
  Forall (fun c => reconcileObs env (snd c)) (history p).
Proof.
  intros H. split.
  - pose proof (process_startup_always env startup schedule) as Hs.
    rewrite H in Hs. cbn [fst] in Hs.
    eapply Forall_impl; [exact Hs|].
    intros [X e x] Ho. destruct e; try reflexivity. destruct Ho.
  - apply process_launched in H as [_ ->].
    destruct (startPool_launch (loadedVars env) (clearFlag env)) as (He & Hh & Ht).
    eapply Forall_impl;
      [apply (pool_always (fun _ => reconcileObs (loadedVars env)));
       [exact He|exact Hh|]|].
    + intros r t. rewrite Ht. destruct (String.eqb _ _); [|discriminate].
      intros [= <-]. apply loop_transactions.
    + intros [r [X e x]]. cbn [fst snd]. destruct e; try (intros; exact I).
      * cbn [reconcileObs]. auto.
      * cbn [reconcileObs].
        rewrite loadedVars_lookup by (cbn; auto 20). auto.
Qed.

Lemma driver_transactions_witness :
  exists p,
    snd (process envBoth startupOk (map (pair TxBatch) (reconcilingAnswers window58))) =
      Launched p /\
    sentNonces (ofRole TxBatch (history p)) = [5; 6; 7]%N /\
    Forall (fun c => reconcileObs envBoth (snd c)) (history p).
Proof.
  assert (exists tr p,
            process envBoth startupOk (map (pair TxBatch) (reconcilingAnswers window58)) =
              (tr, Launched p) /\
            sentNonces (ofRole TxBatch (history p)) = [5; 6; 7]%N)
    as (tr & p & H & Hs) by (eexists _, _; split; vm_compute; reflexivity).
  exists p. split; [rewrite H; reflexivity|]. split; [exact Hs|].
  apply (driver_transactions _ _ _ _ _ H).
Defined.

(** ** The two loops side by side *)

Lemma runPool_not_exited schedule : forall p,
  exited (runPool schedule p) = None -> exited p = None.
Proof.
  intros p H. destruct (exited p) as [code|] eqn:E; [|reflexivity].
  rewrite (runPool_exited schedule p code E) in H. congruence.
Qed.

Lemma answersOf_cons r r' a s :
  answersOf r ((r', a) :: s) =
  if role_eqb r' r then a :: answersOf r s else answersOf r s.
Proof. unfold answersOf. cbn. destruct (role_eqb r' r); reflexivity. Qed.

Lemma pool_own_answers schedule r : forall p t,
  exited (runPool schedule p) = None -> taskOf r p = Some t ->
  ofRole r (history (runPool schedule p)) =
  (ofRole r (history p) ++ fst (exec1 (answersOf r schedule) t))%list.
Proof.
  induction schedule as [|[r' a] s IH]; intros p t Hx Ht.
  - change (runPool [] p) with p. unfold answersOf. cbn [List.filter map].
    rewrite exec1_nil, app_nil_r. reflexivity.
  - pose proof (runPool_not_exited _ _ Hx) as Hp.
    rewrite runPool_cons in *. unfold poolStep in *. rewrite Hp in *.
    rewrite answersOf_cons.
    destruct (role_eqb r' r) eqn:Hr.
    + apply role_eqb_eq in Hr. subst r'. rewrite Ht in *. cbn [exec1].
      destruct (observe t) as [v|t'|X e k] eqn:Ho; [destruct v| |].
      * rewrite (IH _ t' Hx) by (rewrite taskOf_setTask, role_eqb_refl; reflexivity).
        rewrite history_setTask. reflexivity.
      * destruct (exitCode e) as [code|] eqn:Hc.
        { rewrite (runPool_exited s _ code) in Hx by reflexivity. discriminate. }
        rewrite (IH _ (k (a X e)) Hx)
          by (rewrite taskOf_setTask, role_eqb_refl; reflexivity).
        rewrite history_setTask. cbn [record history].
        rewrite ofRole_app, ofRole_one, role_eqb_refl.
        destruct (exec1 (answersOf r s) (k (a X e))) as [tr' s'].
        cbn [fst]. rewrite <- app_assoc. reflexivity.
    + destruct (taskOf r' p) as [t'|] eqn:Ht'; [|apply IH; assumption].
      destruct (observe t') as [v|t''|X e k] eqn:Ho; [destruct v| |].
      * rewrite (IH _ t Hx) by (rewrite taskOf_setTask, Hr; exact Ht).
        rewrite history_setTask. reflexivity.
      * destruct (exitCode e) as [code|] eqn:Hc.
        { rewrite (runPool_exited s _ code) in Hx by reflexivity. discriminate. }
        rewrite (IH _ t Hx) by (rewrite taskOf_setTask, Hr; destruct r; exact Ht).
        rewrite history_setTask. cbn [record history].
        rewrite ofRole_app, ofRole_one, Hr, app_nil_r. reflexivity.
Qed.

(** As long as the process has not exited, what a loop has done is what it
    does on its own with the answers that were meant for it: how the two
    loops interleave, and what the other one is answered, makes no
    difference to it. *)
Theorem loops_run_on_their_own_answers env startup schedule tr p r :
  process env startup schedule = (tr, Launched p) ->
  exited p = None ->
  env !! runFlag r = Some "true" ->
  ofRole r (history p) =
  fst (exec1 (answersOf r schedule)
         (Driver.loop (loadedVars env) (clearFlag env) (Driver.submitNextBatch r))).
Proof.
  intros H Hx Hf. apply process_launched in H as [_ Hp]. subst p.
  destruct (startPool_launch (loadedVars env) (clearFlag env)) as (He & Hh & Ht).
  apply (flag_true env (runFlag r) (runFlag_required r)) in Hf.
  specialize (Ht r). rewrite Hf in Ht.
  rewrite (pool_own_answers schedule r _ _ Hx Ht), Hh. reflexivity.
Qed.

Lemma loops_run_on_their_own_answers_witness :
  exists p,
    snd (process envBoth startupOk txFirst) = Launched p /\
    ofRole StateBatch (history p) =
    fst (exec1 [idle; idle]
           (Driver.loop (loadedVars envBoth) (clearFlag envBoth)
              (Driver.submitNextBatch StateBatch))).
Proof.
  assert (exists tr p,
            process envBoth startupOk txFirst = (tr, Launched p) /\ exited p = None)
    as (tr & p & H & Hx) by (eexists _, _; split; vm_compute; reflexivity).
  exists p. split; [rewrite H; reflexivity|].
  apply (loops_run_on_their_own_answers _ _ _ _ _ StateBatch H Hx).
  vm_compute. reflexivity.
Defined.
